(** * Research Digest: a shallow embedding of [digest.py]

    The development follows the pipeline of the program:
    Feed Fetcher ([fetch_papers]), Ranking Client
    ([filter_and_rank_papers]), HTML Renderer (the four substitution
    passes of [generate_html_email]) and Delivery ([send_email]).

    Python [str] values are sequences of Unicode code points; a code point
    is a number of type [N].  Side effects (console output, calls into
    feedparser, the generative model and the mail relay) are recorded as a
    trace of events next to the result or the raised exception. *)

From Stdlib Require Import String Ascii NArith DecimalString.
From stdpp Require Import gmap list.

Local Open Scope N_scope.
Local Open Scope nat_scope.

(** ** Text *)

Abbreviation char := N.
Abbreviation text := (list N).

(** A Rocq string literal read as a Python [str] (one code point per
    character; only used for ASCII literals of the source). *)
Definition str (s : string) : text :=
  map N_of_ascii (list_ascii_of_string s).
Arguments str s%_string.

Definition NL : char := 10%N.      (* "\n" *)
Definition QUOTE : char := 34%N.   (* the double quote character *)

(** Python slicing [s[:n]] and [s[a:b]] for non-negative bounds. *)
Definition slice_to {A} (n : nat) (s : list A) : list A := take n s.
Definition slice {A} (a b : nat) (s : list A) : list A := take (b - a) (drop a s).

(** ** The regular-expression engine ([re.sub])

    The three patterns of the renderer use literals, the category [\s],
    the wildcard [.], the greedy [+] and lazy [+?] repetition of a single
    character class, and capture groups.  They are represented the way
    [sre] compiles them: a flat list of operations in which a group is
    delimited by two marks. *)

(** [\s] on [str] patterns: [Py_UNICODE_ISSPACE]. *)
Definition is_space (c : char) : bool :=
  ((9 <=? c) && (c <=? 13))%N || ((28 <=? c) && (c <=? 32))%N
  || (c =? 133)%N || (c =? 160)%N || (c =? 5760)%N
  || ((8192 <=? c) && (c <=? 8202))%N
  || (c =? 8232)%N || (c =? 8233)%N || (c =? 8239)%N
  || (c =? 8287)%N || (c =? 12288)%N.

Inductive cls :=
| LITERAL (c : char)     (* a literal character *)
| CATEGORY_SPACE         (* \s *)
| ANY.                   (* .  (no DOTALL flag: anything but a newline) *)

Definition cls_match (k : cls) (c : char) : bool :=
  match k with
  | LITERAL l => (c =? l)%N
  | CATEGORY_SPACE => is_space c
  | ANY => negb (c =? NL)%N
  end.

Inductive op :=
| ONE (k : cls)            (* exactly one character of the class *)
| MAX_REPEAT1 (k : cls)    (* k+   greedy, one or more *)
| MIN_REPEAT1 (k : cls)    (* k+?  lazy, one or more *)
| MARK (i : nat).          (* group g opens at mark 2(g-1), closes at 2(g-1)+1 *)

(** Marks map a mark number to an offset from the start of the match;
    the most recent binding is first. *)
Abbreviation marks := (list (nat * nat)).

Fixpoint mark_get (i : nat) (m : marks) : nat :=
  match m with
  | [] => 0
  | (j, v) :: m' => if Nat.eqb i j then v else mark_get i m'
  end.

Section Repeat.
Context {R : Type} (k : cls) (cont : text -> nat -> option R).

(** Greedy tail of [k+]: take as many characters as possible, then give
    them back one at a time until the rest of the pattern matches. *)
Fixpoint max_until (s : text) (pos : nat) : option R :=
  match s with
  | c :: s' =>
      if cls_match k c then
        match max_until s' (S pos) with
        | Some r => Some r
        | None => cont s pos
        end
      else cont s pos
  | [] => cont s pos
  end.

(** Lazy tail of [k+?]: try the rest of the pattern first, take one more
    character only when it fails. *)
Fixpoint min_until (s : text) (pos : nat) : option R :=
  match cont s pos with
  | Some r => Some r
  | None =>
      match s with
      | c :: s' => if cls_match k c then min_until s' (S pos) else None
      | [] => None
      end
  end.

End Repeat.

(** [exec p s pos m]: match the operations [p] against [s], the text that
    remains at offset [pos] of the attempt; on success the offset of the
    end of the match and the marks. Backtracking restores the marks. *)
Fixpoint exec (p : list op) (s : text) (pos : nat) (m : marks)
  : option (nat * marks) :=
  match p with
  | [] => Some (pos, m)
  | ONE k :: p' =>
      match s with
      | c :: s' => if cls_match k c then exec p' s' (S pos) m else None
      | [] => None
      end
  | MAX_REPEAT1 k :: p' =>
      match s with
      | c :: s' =>
          if cls_match k c
          then max_until k (fun t q => exec p' t q m) s' (S pos)
          else None
      | [] => None
      end
  | MIN_REPEAT1 k :: p' =>
      match s with
      | c :: s' =>
          if cls_match k c
          then min_until k (fun t q => exec p' t q m) s' (S pos)
          else None
      | [] => None
      end
  | MARK i :: p' => exec p' s pos ((i, pos) :: m)
  end.

(** Replacement templates: literal pieces and group references [\g]. *)
Inductive piece :=
| TLit (t : text)
| TGroup (g : nat).

Definition group (g : nat) (m : marks) (s : text) : text :=
  slice (mark_get (2 * (g - 1)) m) (mark_get (2 * (g - 1) + 1) m) s.

Definition expand_piece (m : marks) (s : text) (x : piece) : text :=
  match x with
  | TLit t => t
  | TGroup g => group g m s
  end.

Definition expand (tpl : list piece) (m : marks) (s : text) : text :=
  concat (map (expand_piece m s) tpl).

(** [re.sub(p, tpl, s)]: the leftmost match is replaced and the scan goes
    on after it.  [skip] counts the characters of the current match that
    are still to be passed over.  Every pattern of the program consumes at
    least three characters (lemma [exec_consumes] below), so the rule of
    [re.sub] for empty matches is never exercised; an empty match is
    treated here as no match. *)
Fixpoint sub_from (p : list op) (tpl : list piece) (s : text) (skip : nat)
  : text :=
  match s with
  | [] => []
  | c :: s' =>
      match skip with
      | S n => sub_from p tpl s' n
      | O =>
          match exec p s 0 [] with
          | Some (S n, m) => expand tpl m s ++ sub_from p tpl s' n
          | _ => c :: sub_from p tpl s' 0
          end
      end
  end.

Definition re_sub (p : list op) (tpl : list piece) (s : text) : text :=
  sub_from p tpl s 0.

(** [re.search(p, s) is not None]. *)
Fixpoint has_match (p : list op) (s : text) : bool :=
  match exec p s 0 [] with
  | Some (S _, _) => true
  | _ => match s with
         | [] => false
         | _ :: s' => has_match p s'
         end
  end.

(** [s.replace(old, new)] for a non-empty [old]: non-overlapping
    occurrences, left to right. *)
Fixpoint is_prefix (a s : text) : bool :=
  match a, s with
  | [], _ => true
  | x :: a', y :: s' => (x =? y)%N && is_prefix a' s'
  | _ :: _, [] => false
  end.

Fixpoint replace_from (old new s : text) (skip : nat) : text :=
  match s with
  | [] => []
  | c :: s' =>
      match skip with
      | S n => replace_from old new s' n
      | O =>
          if is_prefix old s
          then new ++ replace_from old new s' (length old - 1)
          else c :: replace_from old new s' 0
      end
  end.

Definition replace (old new s : text) : text := replace_from old new s 0.

(** The number of places of [s] where [needle] occurs. *)
Fixpoint count_sub (needle s : text) : nat :=
  (if is_prefix needle s then 1 else 0)
  + match s with
    | [] => 0
    | _ :: s' => count_sub needle s'
    end.

(** ** HTML Renderer: the four passes of [generate_html_email] *)

Definition HASH : char := 35%N.
Definition STAR : char := 42%N.
Definition LBRACKET : char := 91%N.
Definition RBRACKET : char := 93%N.
Definition LPAREN : char := 40%N.
Definition RPAREN : char := 41%N.

(** [r'###\s+(.+)'] *)
Definition heading_re : list op :=
  [ONE (LITERAL HASH); ONE (LITERAL HASH); ONE (LITERAL HASH);
   MAX_REPEAT1 CATEGORY_SPACE;
   MARK 0; MAX_REPEAT1 ANY; MARK 1].

(** [r'<h3>\1</h3>'] *)
Definition heading_tpl : list piece :=
  [TLit (str "<h3>"); TGroup 1; TLit (str "</h3>")].

(** [r'\*\*(.+?)\*\*'] *)
Definition bold_re : list op :=
  [ONE (LITERAL STAR); ONE (LITERAL STAR);
   MARK 0; MIN_REPEAT1 ANY; MARK 1;
   ONE (LITERAL STAR); ONE (LITERAL STAR)].

(** [r'<strong>\1</strong>'] *)
Definition bold_tpl : list piece :=
  [TLit (str "<strong>"); TGroup 1; TLit (str "</strong>")].

(** [r'\[(.+?)\]\((.+?)\)'] *)
Definition link_re : list op :=
  [ONE (LITERAL LBRACKET);
   MARK 0; MIN_REPEAT1 ANY; MARK 1;
   ONE (LITERAL RBRACKET); ONE (LITERAL LPAREN);
   MARK 2; MIN_REPEAT1 ANY; MARK 3;
   ONE (LITERAL RPAREN)].

(** [r'<a href="\2">\1</a>'] *)
Definition link_tpl : list piece :=
  [TLit (str "<a href=" ++ [QUOTE]); TGroup 2;
   TLit ([QUOTE] ++ str ">"); TGroup 1; TLit (str "</a>")].

Definition heading_pass (s : text) : text := re_sub heading_re heading_tpl s.
Definition bold_pass (s : text) : text := re_sub bold_re bold_tpl s.
Definition link_pass (s : text) : text := re_sub link_re link_tpl s.
Definition break_pass (s : text) : text :=
  replace [NL; NL] (str "<br><br>") s.

(** Lines 104-113: the value of [digest_content] that is placed in the
    document. *)
Definition substitution_passes (digest_content : text) : text :=
  let digest_content := heading_pass digest_content in
  let digest_content := bold_pass digest_content in
  let digest_content := link_pass digest_content in
  break_pass digest_content.

(** ** Predicates on text used in the statements *)

(** Every character of [a] is of class [k]. *)
Definition matches (k : cls) (a : text) : Prop :=
  Forall (fun c => cls_match k c = true) a.

(** The next character, if any, is not of class [k]. *)
Definition stops (k : cls) (b : text) : Prop :=
  match b with
  | [] => True
  | c :: _ => cls_match k c = false
  end.

(** Text without asterisks and square brackets. *)
Definition plain (x : text) : Prop :=
  (STAR ∉ x) /\ (LBRACKET ∉ x) /\ (RBRACKET ∉ x).

(** The least number of characters a match of [p] takes. *)
Fixpoint min_len (p : list op) : nat :=
  match p with
  | [] => 0
  | MARK _ :: p' => min_len p'
  | _ :: p' => S (min_len p')
  end.

(** ** Values, exceptions, events *)

(** A value of the configuration document as [yaml.safe_load] gives it:
    a string, or any other value (number, boolean, null, list, mapping),
    kept with the text that formatting it in an f-string produces.  A value
    that is not a string is never equal to a string literal. *)
Inductive value :=
| VStr (s : text)
| VOther (rendered : text).

#[global] Instance value_eq_dec : EqDecision value.
Proof. solve_decision. Defined.

(** [f"{v}"] *)
Definition format (v : value) : text :=
  match v with
  | VStr s => s
  | VOther r => r
  end.

Inductive exn :=
| ValueError (msg : text)
| KeyError (key : text)
| TypeError (msg : text)
| LibraryError (msg : text).   (* raised inside feedparser, genai or smtplib *)

(** [str(e)] *)
Definition exn_text (e : exn) : text :=
  match e with
  | ValueError msg => msg
  | KeyError key => str "'" ++ key ++ str "'"
  | TypeError msg => msg
  | LibraryError msg => msg
  end.

(** The message handed to the mail relay. *)
Record message := {
  msg_subtype : text;
  msg_subject : text;
  msg_from : text;
  msg_to : value;
  msg_parts : list (text * text)   (* body, subtype *)
}.

Inductive event :=
| Print (line : text)                    (* print(line) *)
| FeedParse (url : text)                 (* feedparser.parse(url) *)
| GenaiConfigure (api_key : text)        (* genai.configure(api_key=...) *)
| GenaiModel (model_name : text)         (* genai.GenerativeModel(...) *)
| GenerateContent (prompt : text)        (* model.generate_content(prompt) *)
| SmtpConnect (host : text) (port : N)   (* smtplib.SMTP_SSL(host, port) *)
| SmtpLogin (user password : text)       (* server.login(...) *)
| SmtpSend (msg : message)               (* server.send_message(msg) *)
| SmtpQuit.                              (* leaving the with block *)

(** The events that reach out of the process. *)
Definition is_network (e : event) : bool :=
  match e with
  | Print _ | GenaiConfigure _ | GenaiModel _ => false
  | _ => true
  end.

Inductive outcome (A : Type) :=
| Return (a : A)
| Raise (e : exn).
Arguments Return {A} a.
Arguments Raise {A} e.

(** A computation: the events it performed, in order, and how it ended. *)
Definition io (A : Type) : Type := list event * outcome A.

#[global] Instance io_ret : MRet io := fun A a => ([], Return a).

#[global] Instance io_bind : MBind io := fun A B f x =>
  match x with
  | (t, Return a) => let '(t', r) := f a in (t ++ t', r)
  | (t, Raise e) => (t, Raise e)
  end.

Definition raise {A} (e : exn) : io A := ([], Raise e).
Definition emit (e : event) : io unit := ([e], Return tt).
Definition print (line : text) : io unit := emit (Print line).

(** [try: body  except Exception as e: handler e] *)
Definition try_except {A} (body : io A) (handler : exn -> io A) : io A :=
  match body with
  | (t, Return a) => (t, Return a)
  | (t, Raise e) => let '(t', r) := handler e in (t ++ t', r)
  end.

(** [d[key]] on a dict. *)
Definition getitem {V} (d : gmap text V) (key : text) : io V :=
  match d !! key with
  | Some v => mret v
  | None => raise (KeyError key)
  end.

(** [not x] for the result of [os.environ.get]: [None] and the empty
    string are false. *)
Definition falsy (x : option text) : bool :=
  match x with
  | None | Some [] => true
  | Some (_ :: _) => false
  end.

(** A feed entry as [entry.get] sees it. *)
Abbreviation entry := (gmap text text).

(** Everything outside the process. *)
Record world := {
  environ : gmap text text;                      (* os.environ *)
  feed_entries : text -> exn + list entry;       (* feedparser.parse(url).entries *)
  model_reply : text -> exn + text;              (* generate_content(prompt).text *)
  today : text;                                  (* now().strftime('%Y-%m-%d') *)
  today_long : text;                             (* now().strftime('%B %d, %Y') *)
  smtp_connect : text -> N -> option exn;
  smtp_login : text -> text -> option exn;
  smtp_send : message -> option exn
}.

Definition of_sum {A} (r : exn + A) : outcome A :=
  match r with
  | inl e => Raise e
  | inr a => Return a
  end.

Definition of_failure (r : option exn) : outcome unit :=
  match r with
  | Some e => Raise e
  | None => Return tt
  end.

(** ** Feed Fetcher *)

Record feed_source := { name : text; url : text }.

Record paper := { title : text; summary : text; link : text; source : text }.

Definition feedparser_parse (w : world) (u : text) : io (list entry) :=
  ([FeedParse u], of_sum (feed_entries w u)).

(** [entry.get(key, '')] *)
Definition entry_get (e : entry) (key : text) : text := default [] (e !! key).

(** The dict appended for one entry (lines 31-36). *)
Definition paper_of (feed_info : feed_source) (e : entry) : paper :=
  {| title := entry_get e (str "title");
     summary := entry_get e (str "summary");
     link := entry_get e (str "link");
     source := name feed_info |}.

(** The inner loop: [for entry in feed.entries[:50]: papers.append(...)]. *)
Fixpoint append_entries (feed_info : feed_source) (entries : list entry)
  (papers : list paper) : list paper :=
  match entries with
  | [] => papers
  | e :: entries' =>
      append_entries feed_info entries' (papers ++ [paper_of feed_info e])
  end.

(** The outer loop over [feeds], with [papers] the list built so far. *)
Fixpoint fetch_loop (w : world) (feeds : list feed_source)
  (papers : list paper) : io (list paper) :=
  match feeds with
  | [] => mret papers
  | feed_info :: feeds' =>
      print (str "Fetching from " ++ name feed_info ++ str "...");;
      feed ← feedparser_parse w (url feed_info);
      fetch_loop w feeds' (append_entries feed_info (slice_to 50 feed) papers)
  end.

Definition fetch_papers (w : world) (feeds : list feed_source)
  : io (list paper) :=
  fetch_loop w feeds [].

(** ** Ranking Client *)

(** [str(i)] for a non-negative integer. *)
Definition decimal (n : nat) : text :=
  str (NilEmpty.string_of_uint (Nat.to_uint n)).

(** [sep.join(l)] *)
Fixpoint join (sep : text) (l : list text) : text :=
  match l with
  | [] => []
  | [x] => x
  | x :: l' => x ++ sep ++ join sep l'
  end.

(** The f-string of line 53. *)
Definition listing_entry (i : nat) (t src summ lnk : text) : text :=
  decimal i ++ str ". **" ++ t ++ str "** (Source: " ++ src ++ str ")"
  ++ [NL] ++ str "   Abstract: " ++ slice_to 400 summ
  ++ [NL] ++ str "   Link: " ++ lnk.

(** [for i, p in enumerate(..., i): papers_list.append(...)] *)
Fixpoint listing_loop (i : nat) (ps : list paper) (papers_list : list text)
  : list text :=
  match ps with
  | [] => papers_list
  | p :: ps' =>
      listing_loop (S i) ps'
        (papers_list
         ++ [listing_entry i (title p) (source p) (summary p) (link p)])
  end.

Definition prompt_lines (research_interests max_papers : value)
  (papers_list : list text) : list text :=
  [str "You are an expert research assistant with deep knowledge of academic literature.";
   [];
   str "RESEARCHER'S PROFILE:";
   format research_interests;
   [];
   str "YOUR TASK:";
   str "Carefully review the papers below and select the TOP " ++ format max_papers ++ str " most valuable papers for this researcher.";
   str "Be highly selective - only include papers that would genuinely advance their research.";
   [];
   str "PAPERS TO REVIEW:";
   join [NL] papers_list;
   [];
   str "OUTPUT FORMAT:";
   str "For each selected paper, provide:";
   [];
   str "### [Paper Number]. Paper Title";
   [];
   str "**Source:** [Journal/Working Paper Series]";
   [];
   str "**Why this matters:** [2-3 sentences explaining the paper's relevance to the researcher's work. Be specific - reference their research questions, methods, or contexts. Explain what they can learn or adapt from this paper.]";
   [];
   str "**Key findings:** [2-3 sentences on the main empirical results, methodology, or theoretical contribution. Focus on actionable insights.]";
   [];
   str "**Link:** [Full URL]";
   [];
   str "---";
   [];
   str "CRITICAL INSTRUCTIONS:";
   str "- Quality over quantity: It's better to return 5 exceptional papers than 15 mediocre ones";
   str "- Be ruthless: Only include papers that directly advance their research agenda";
   str "- Prioritize papers with strong identification strategies and novel contributions";
   str "- Skip papers that are tangentially related or merely descriptive";
   str "- For each paper, think: " ++ [QUOTE] ++ str "Would I email this to them if I were their research assistant?" ++ [QUOTE];
   str "- Order papers by relevance (most relevant first)";
   str "- If fewer than " ++ format max_papers ++ str " papers meet the high bar, that's okay - only return the truly valuable ones";
   [];
   str "Begin your response with a brief 1-sentence summary of the overall quality and themes of this week's papers, then list the selected papers."].

(** The f-string of lines 55-92: every line of the literal ends with a
    newline. *)
Definition build_prompt (research_interests max_papers : value)
  (papers_list : list text) : text :=
  concat (map (fun l => l ++ [NL])
            (prompt_lines research_interests max_papers papers_list)).

Definition generate_content (w : world) (prompt : text) : io text :=
  ([GenerateContent prompt], of_sum (model_reply w prompt)).

Definition filter_and_rank_papers (w : world) (papers : list paper)
  (research_interests max_papers : value) : io text :=
  let api_key := environ w !! str "GEMINI_API_KEY" in
  if falsy api_key then
    raise (ValueError (str "GEMINI_API_KEY not found in environment variables"))
  else
    emit (GenaiConfigure (default [] api_key));;
    emit (GenaiModel (str "gemini-2.0-flash-exp"));;
    let papers_list := listing_loop 1 (slice_to 150 papers) [] in
    let prompt := build_prompt research_interests max_papers papers_list in
    response ← generate_content w prompt;
    mret response.

(** The name of [filter_and_rank_papers] where
    [Store.filter_and_rank_papers] is in scope. *)
Abbreviation rank_values := filter_and_rank_papers.

(** ** HTML Renderer: the document *)

(** The lines of the f-string of lines 115-196 between its first and its
    last line; doubled braces of the source stand for single ones. *)
Definition html_lines (w : world) (digest_content : text) : list text :=
  [str "    <html>";
   str "    <head>";
   str "        <meta charset=" ++ [QUOTE] ++ str "UTF-8" ++ [QUOTE] ++ str ">";
   str "        <meta name=" ++ [QUOTE] ++ str "viewport" ++ [QUOTE] ++ str " content=" ++ [QUOTE] ++ str "width=device-width, initial-scale=1.0" ++ [QUOTE] ++ str ">";
   str "        <style>";
   str "            body {";
   str "                font-family: -apple-system, BlinkMacSystemFont, 'Segoe UI', Roboto, Helvetica, Arial, sans-serif;";
   str "                line-height: 1.6;";
   str "                color: #1a1a1a;";
   str "                max-width: 700px;";
   str "                margin: 0 auto;";
   str "                padding: 20px;";
   str "                background-color: #ffffff;";
   str "            }";
   str "            h1 {";
   str "                color: #0060df;";
   str "                font-size: 28px;";
   str "                margin-bottom: 10px;";
   str "                border-bottom: 3px solid #0060df;";
   str "                padding-bottom: 10px;";
   str "            }";
   str "            h3 {";
   str "                color: #003d99;";
   str "                font-size: 18px;";
   str "                margin-top: 30px;";
   str "                margin-bottom: 12px;";
   str "                line-height: 1.4;";
   str "            }";
   str "            .meta {";
   str "                color: #666;";
   str "                font-size: 14px;";
   str "                margin-bottom: 30px;";
   str "            }";
   str "            a {";
   str "                color: #0060df;";
   str "                text-decoration: none;";
   str "                font-weight: 500;";
   str "            }";
   str "            a:hover {";
   str "                color: #003d99;";
   str "                text-decoration: underline;";
   str "            }";
   str "            strong {";
   str "                color: #003d99;";
   str "                font-weight: 600;";
   str "            }";
   str "            hr {";
   str "                border: none;";
   str "                border-top: 1px solid #e0e0e0;";
   str "                margin: 40px 0 20px 0;";
   str "            }";
   str "            .footer {";
   str "                color: #999;";
   str "                font-size: 13px;";
   str "                margin-top: 40px;";
   str "                padding-top: 20px;";
   str "                border-top: 1px solid #e0e0e0;";
   str "            }";
   str "            .summary {";
   str "                background-color: #f8f9fa;";
   str "                padding: 15px;";
   str "                border-radius: 8px;";
   str "                margin: 20px 0;";
   str "                font-style: italic;";
   str "                color: #555;";
   str "            }";
   str "        </style>";
   str "    </head>";
   str "    <body>";
   str "        <h1>" ++ [240; 376; 8220; 353]%N ++ str " Research Digest</h1>";
   str "        <p class=" ++ [QUOTE] ++ str "meta" ++ [QUOTE] ++ str ">" ++ today_long w ++ str "</p>";
   [];
   str "        " ++ digest_content;
   [];
   str "        <div class=" ++ [QUOTE] ++ str "footer" ++ [QUOTE] ++ str ">";
   str "            <p>Generated by your personal <a href=" ++ [QUOTE] ++ str "https://github.com/zytynski/research-digest" ++ [QUOTE] ++ str ">Research Digest</a></p>";
   str "            <p style=" ++ [QUOTE] ++ str "font-size: 12px; color: #bbb;" ++ [QUOTE] ++ str ">To modify preferences, edit config.yaml in your repository</p>";
   str "        </div>";
   str "    </body>";
   str "    </html>"].

(** [generate_html_email]: the four passes, then the document around their
    result.  The literal opens with a newline and closes with the four
    spaces before the closing quotes; [config] is not read. *)
Definition generate_html_email (w : world) (digest_content : text)
  (config : gmap text value) : text :=
  let digest_content := substitution_passes digest_content in
  [NL] ++ concat (map (fun l => l ++ [NL]) (html_lines w digest_content))
  ++ str "    ".

(** ** Delivery *)

Definition server_login (w : world) (user password : text) : io unit :=
  ([SmtpLogin user password], of_failure (smtp_login w user password)).

Definition server_send_message (w : world) (msg : message) : io unit :=
  ([SmtpSend msg], of_failure (smtp_send w msg)).

(** [with smtplib.SMTP_SSL(host, port) as server: body]: the connection is
    opened, and once it is open the block is left through [SmtpQuit],
    whether [body] returns or raises. *)
Definition with_SMTP_SSL (w : world) (host : text) (port : N)
  (body : io unit) : io unit :=
  ([SmtpConnect host port], of_failure (smtp_connect w host port));;
  let '(t, r) := body in (t ++ [SmtpQuit], r).

Definition send_email (w : world) (html_content : text)
  (config : gmap text value) : io unit :=
  let email_method :=
    default (VStr (str "print")) (config !! str "email_method") in
  if decide (email_method = VStr (str "print")) then
    print (str "Email generation successful!");;
    recipient ← getitem config (str "email");
    print (str "Would send to: " ++ format recipient);;
    print ([NL] ++ str "Preview:");;
    print (slice_to 500 html_content)
  else if decide (email_method = VStr (str "gmail")) then
    let sender_email := environ w !! str "GMAIL_ADDRESS" in
    let sender_password := environ w !! str "GMAIL_APP_PASSWORD" in
    if falsy sender_email || falsy sender_password then
      raise (ValueError (str "Gmail credentials not found. Set GMAIL_ADDRESS and GMAIL_APP_PASSWORD in secrets."))
    else
      let sender_email := default [] sender_email in
      let sender_password := default [] sender_password in
      recipient ← getitem config (str "email");
      let msg :=
        {| msg_subtype := str "alternative";
           msg_subject := str "Research Digest - " ++ today w;
           msg_from := sender_email;
           msg_to := recipient;
           msg_parts := [(html_content, str "html")] |} in
      try_except
        (with_SMTP_SSL w (str "smtp.gmail.com") 465%N
           (server_login w sender_email sender_password;;
            server_send_message w msg);;
         recipient ← getitem config (str "email");
         print (str "Email sent successfully to " ++ format recipient))
        (fun e =>
           print (str "Failed to send email: " ++ exn_text e);;
           raise e)
  else
    raise (ValueError (str "Unknown email method: " ++ format email_method
                       ++ str ". Use 'print' or 'gmail'")).

(** ** The Ranking Client on the object store

    Python lists and dicts are mutable objects reached through references.
    To speak about what a call leaves unchanged, the same function is
    written over a store of objects: [papers] is a reference to a list
    object whose items are references to the dicts built by the Fetcher. *)

Module Store.

Abbreviation loc := nat.

Inductive pyval :=
| Str (s : text)
| Ref (l : loc).

Inductive obj :=
| OList (items : list pyval)
| ODict (fields : gmap text text).

Abbreviation heap := (gmap nat obj).

(** A computation over the store: events, outcome, and the store after. *)
Definition hio (A : Type) : Type := heap -> io A * heap.

#[global] Instance hio_ret : MRet hio := fun A a h => (mret a, h).

#[global] Instance hio_bind : MBind hio := fun A B f x h =>
  match x h with
  | ((t, Return a), h') =>
      let '((t', r), h'') := f a h' in ((t ++ t', r), h'')
  | ((t, Raise e), h') => ((t, Raise e), h')
  end.

Definition lift {A} (x : io A) : hio A := fun h => (x, h).

(** A new object: [[]], or the result of a slice. *)
Definition alloc (o : obj) : hio loc :=
  fun h => let l := fresh (dom h) in (mret l, <[l := o]> h).

(** The items of the list object behind [v]. *)
Definition list_items (v : pyval) : hio (list pyval) :=
  fun h =>
    match v with
    | Ref l =>
        match h !! l with
        | Some (OList items) => (mret items, h)
        | _ => (raise (TypeError (str "object is not a list")), h)
        end
    | Str _ => (raise (TypeError (str "object is not a list")), h)
    end.

(** [v[:n]]: a new list object with the first [n] items of [v]. *)
Definition list_slice_to (n : nat) (v : pyval) : hio loc :=
  items ← list_items v;
  alloc (OList (slice_to n items)).

(** [l.append(x)]: the list object at [l] is updated in place. *)
Definition list_append (l : loc) (x : pyval) : hio unit :=
  fun h =>
    match h !! l with
    | Some (OList items) => (mret tt, <[l := OList (items ++ [x])]> h)
    | _ => (raise (TypeError (str "object has no append")), h)
    end.

(** [p[key]] where [p] is expected to be a dict. *)
Definition dict_getitem (p : pyval) (key : text) : hio text :=
  fun h =>
    match p with
    | Ref l =>
        match h !! l with
        | Some (ODict fields) => (getitem fields key, h)
        | _ => (raise (TypeError (str "indices must be integers")), h)
        end
    | Str _ => (raise (TypeError (str "string indices must be integers")), h)
    end.

(** [for i, p in enumerate(items, i): body i p] *)
Fixpoint for_enumerate (i : nat) (items : list pyval)
  (body : nat -> pyval -> hio unit) : hio unit :=
  match items with
  | [] => mret tt
  | p :: items' => body i p;; for_enumerate (S i) items' body
  end.

(** The strings of a list of strings, for [join]. *)
Fixpoint strings_of (items : list pyval) : io (list text) :=
  match items with
  | [] => mret []
  | Str s :: items' => l ← strings_of items'; mret (s :: l)
  | Ref _ :: _ => raise (TypeError (str "sequence item: expected str instance"))
  end.

(** The body of the loop of lines 52-53: the f-string reads the four
    fields of [p], then the line is appended to [papers_list]. *)
Definition listing_body (papers_list : loc) (i : nat) (p : pyval)
  : hio unit :=
  t ← dict_getitem p (str "title");
  src ← dict_getitem p (str "source");
  summ ← dict_getitem p (str "summary");
  lnk ← dict_getitem p (str "link");
  list_append papers_list (Str (listing_entry i t src summ lnk)).

Definition filter_and_rank_papers (w : world) (papers : pyval)
  (research_interests max_papers : value) : hio text :=
  let api_key := environ w !! str "GEMINI_API_KEY" in
  if falsy api_key then
    lift (raise (ValueError (str "GEMINI_API_KEY not found in environment variables")))
  else
    lift (emit (GenaiConfigure (default [] api_key)));;
    lift (emit (GenaiModel (str "gemini-2.0-flash-exp")));;
    papers_list ← alloc (OList []);
    first ← list_slice_to 150 papers;
    items ← list_items (Ref first);
    for_enumerate 1 items (listing_body papers_list);;
    lines ← list_items (Ref papers_list);
    lines ← lift (strings_of lines);
    let prompt := build_prompt research_interests max_papers lines in
    response ← lift (generate_content w prompt);
    mret response.

(** The dict that the Fetcher builds for a paper. *)
Definition paper_dict (p : paper) : obj :=
  ODict (<[str "title" := title p]>
         (<[str "summary" := summary p]>
          (<[str "link" := link p]>
           (<[str "source" := source p]> ∅)))).

(** The store holds the list [ps] at [v]. *)
Definition holds_papers (h : heap) (v : pyval) (ps : list paper) : Prop :=
  exists l ls,
    v = Ref l /\ h !! l = Some (OList (Ref <$> ls)) /\
    Forall2 (fun r p => h !! r = Some (paper_dict p)) ls ps.

(** [x] after the events [t]. *)
Definition after {A} (t : list event) (x : io A * heap) : io A * heap :=
  ((t ++ fst (fst x), snd (fst x)), snd x).

(** Every object of [h0] is still in [h], unchanged. *)
Definition frame (h0 h : heap) : Prop :=
  forall l, is_Some (h0 !! l) -> h !! l = h0 !! l.

(** [c] changes no object that [h0] holds, and [Q] holds of what it
    returns. *)
Definition keeps {A} (h0 : heap) (c : hio A) (Q : A -> Prop) : Prop :=
  forall h, frame h0 h ->
    frame h0 (snd (c h)) /\ forall a, snd (fst (c h)) = Return a -> Q a.

End Store.

(** The entries that the feed of a source holds. *)
Definition entries_available (w : world) (f : feed_source) : list entry :=
  match feed_entries w (url f) with
  | inr es => es
  | inl _ => []
  end.

Definition feed_ok (w : world) (f : feed_source) : Prop :=
  feed_entries w (url f) = inr (entries_available w f).

(** Source-then-entry order: the records of the first source in entry
    order, then those of the second, and so on, at most 50 per source. *)
Definition in_source_order (w : world) (feeds : list feed_source)
  : list paper :=
  concat (map (fun f => map (paper_of f) (take 50 (entries_available w f)))
            feeds).

(** The progress line and the retrieval of each source. *)
Definition fetch_trace (feeds : list feed_source) : list event :=
  concat (map (fun f => [Print (str "Fetching from " ++ name f ++ str "...");
                         FeedParse (url f)]) feeds).

(** ** Sample data *)

Definition sample_entry (t : string) : entry :=
  {[ str "title" := str t ]}.

Definition sample_world : world :=
  {| environ := ∅;
     feed_entries := fun u =>
       if decide (u = str "http://a")
       then inr [sample_entry "A1"; sample_entry "A2"]
       else inr [sample_entry "B1"];
     model_reply := fun _ => inr [];
     today := str "2025-01-06";
     today_long := str "January 06, 2025";
     smtp_connect := fun _ _ => None;
     smtp_login := fun _ _ => None;
     smtp_send := fun _ => None |}.

Definition keyed_world : world :=
  {| environ := {[ str "GEMINI_API_KEY" := str "k" ]};
     feed_entries := fun _ => inr [];
     model_reply := fun _ => inr (str "### 1. T");
     today := str "2025-01-06";
     today_long := str "January 06, 2025";
     smtp_connect := fun _ _ => None;
     smtp_login := fun _ _ => None;
     smtp_send := fun _ => None |}.

Definition sample_paper : paper :=
  {| title := str "T"; summary := str "S"; link := str "L";
     source := str "A" |}.

(** A store with the list [[sample_paper]] at location 0. *)
Definition sample_heap : Store.heap :=
  <[0 := Store.OList [Store.Ref 1]]>
    (<[1 := Store.paper_dict sample_paper]> ∅).

Definition sample_feeds : list feed_source :=
  [ {| name := str "A"; url := str "http://a" |};
    {| name := str "B"; url := str "http://b" |} ].

Definition quiet_world : world :=
  {| environ := ∅;
     feed_entries := fun _ => inr [];
     model_reply := fun _ => inr [];
     today := str "2025-01-06";
     today_long := str "January 06, 2025";
     smtp_connect := fun _ _ => None;
     smtp_login := fun _ _ => None;
     smtp_send := fun _ => None |}.

Definition preview_config : gmap text value :=
  {[ str "email" := VStr (str "reader@example.org") ]}.

Definition gmail_config : gmap text value :=
  <[ str "email_method" := VStr (str "gmail") ]> preview_config.

Definition smtp_config : gmap text value :=
  <[ str "email_method" := VStr (str "smtp") ]> preview_config.

(** ** Further predicates on patterns and marks *)

(** No operation of the pattern accepts a newline. *)
Definition newline_free (p : list op) : Prop :=
  Forall (fun o => match o with
                   | ONE k | MAX_REPEAT1 k | MIN_REPEAT1 k =>
                       cls_match k NL = false
                   | MARK _ => True
                   end) p.

(** Every mark lies at offset [n] or before. *)
Definition marks_le (n : nat) (m : marks) : Prop :=
  Forall (fun jv => snd jv <= n) m.

(** ** Names for what Delivery builds *)

(** The message of lines 220-226. *)
Definition digest_message (w : world) (html_content sender : text)
  (recipient : value) : message :=
  {| msg_subtype := str "alternative";
     msg_subject := str "Research Digest - " ++ today w;
     msg_from := sender;
     msg_to := recipient;
     msg_parts := [(html_content, str "html")] |}.

Definition GMAIL_HOST : text := str "smtp.gmail.com".
Definition GMAIL_PORT : N := 465%N.

(** The configuration selects the gmail mode and the environment holds
    both credentials. *)
Definition gmail_ready (w : world) (config : gmap text value)
  (sender password : text) : Prop :=
  config !! str "email_method" = Some (VStr (str "gmail")) /\
  environ w !! str "GMAIL_ADDRESS" = Some sender /\ sender <> [] /\
  environ w !! str "GMAIL_APP_PASSWORD" = Some password /\ password <> [].

Definition gmail_world (c l s : option exn) : world :=
  {| environ := <[str "GMAIL_ADDRESS" := str "me@example.org"]>
                  {[ str "GMAIL_APP_PASSWORD" := str "pw" ]};
     feed_entries := fun _ => inr [];
     model_reply := fun _ => inr [];
     today := str "2025-01-06";
     today_long := str "January 06, 2025";
     smtp_connect := fun _ _ => c;
     smtp_login := fun _ _ => l;
     smtp_send := fun _ => s |}.

(** The sender address is set, to the empty string. *)
Definition blank_sender_world : world :=
  {| environ := <[str "GMAIL_ADDRESS" := []]>
                  {[ str "GMAIL_APP_PASSWORD" := str "pw" ]};
     feed_entries := fun _ => inr [];
     model_reply := fun _ => inr [];
     today := str "2025-01-06";
     today_long := str "January 06, 2025";
     smtp_connect := fun _ _ => None;
     smtp_login := fun _ _ => None;
     smtp_send := fun _ => None |}.

(** ** Names for statements about the Fetcher and the Ranking Client *)

(** The retrieval of [f] raises [e]. *)
Definition feed_fails (w : world) (f : feed_source) (e : exn) : Prop :=
  feed_entries w (url f) = inl e.

(** The record with its summary cut to 400 characters. *)
Definition clip_summary (p : paper) : paper :=
  {| title := title p; summary := slice_to 400 (summary p);
     link := link p; source := source p |}.

(** A world in which the second feed cannot be retrieved. *)
Definition broken_feed_world : world :=
  {| environ := ∅;
     feed_entries := fun u =>
       if decide (u = str "http://a")
       then inr [sample_entry "A1"; sample_entry "A2"]
       else inl (LibraryError (str "timeout"));
     model_reply := fun _ => inr [];
     today := str "2025-01-06";
     today_long := str "January 06, 2025";
     smtp_connect := fun _ _ => None;
     smtp_login := fun _ _ => None;
     smtp_send := fun _ => None |}.

(** A world whose key is set, to the empty string. *)
Definition blank_key_world : world :=
  {| environ := {[ str "GEMINI_API_KEY" := [] ]};
     feed_entries := fun _ => inr [];
     model_reply := fun _ => inr [];
     today := str "2025-01-06";
     today_long := str "January 06, 2025";
     smtp_connect := fun _ _ => None;
     smtp_login := fun _ _ => None;
     smtp_send := fun _ => None |}.

(** ** Orchestration: [load_config] and [main] *)

(** The document that [yaml.safe_load] returns: the scalar settings by
    key, and next to them the value of the key [feeds], a list of feed
    sources, when the document has that key. *)
Record configuration := {
  settings : gmap text value;
  feeds_setting : option (list feed_source)
}.

(** [load_config]: what opening and parsing [config.yaml] gives, the
    document or the exception. *)
Definition load_config (file : exn + configuration) : io configuration :=
  ([], of_sum file).

(** [config['feeds']] *)
Definition config_feeds (config : configuration) : io (list feed_source) :=
  match feeds_setting config with
  | Some feeds => mret feeds
  | None => raise (KeyError (str "feeds"))
  end.

Definition main (w : world) (file : exn + configuration) : io unit :=
  print (str "Starting Research Digest Generator...");;
  config ← load_config file;
  email ← getitem (settings config) (str "email");
  print (str "Configuration loaded for: " ++ format email);;
  feeds ← config_feeds config;
  papers ← fetch_papers w feeds;
  feeds' ← config_feeds config;
  print (str "Fetched " ++ decimal (length papers) ++ str " papers from "
         ++ decimal (length feeds') ++ str " sources");;
  print (str "Analyzing papers with AI...");;
  research_interests ← getitem (settings config) (str "research_interests");
  max_papers ← getitem (settings config) (str "max_papers");
  digest_content ←
    filter_and_rank_papers w papers research_interests max_papers;
  let html_email := generate_html_email w digest_content (settings config) in
  send_email w html_email (settings config);;
  print (str "Digest generation complete!").

(** The first 500 characters of the document, which are part of its fixed
    head. *)
Definition document_head : text :=
  Eval vm_compute in take 500 (generate_html_email quiet_world [] ∅).

(** The mail relay is addressed. *)
Definition is_smtp (e : event) : bool :=
  match e with
  | SmtpConnect _ _ | SmtpLogin _ _ | SmtpSend _ | SmtpQuit => true
  | _ => false
  end.

(** The document has the four keys that [main] reads. *)
Definition complete_config (c : configuration) (email ri mp : value)
  (feeds : list feed_source) : Prop :=
  settings c !! str "email" = Some email /\
  settings c !! str "research_interests" = Some ri /\
  settings c !! str "max_papers" = Some mp /\
  feeds_setting c = Some feeds.

Definition sample_configuration : configuration :=
  {| settings :=
       <[str "research_interests" := VStr (str "trade")]>
         (<[str "max_papers" := VOther (str "10")]> preview_config);
     feeds_setting := Some sample_feeds |}.

(** The prompt that the Ranking Client sends for [papers]. *)
Definition ranking_prompt (papers : list paper)
  (research_interests max_papers : value) : text :=
  build_prompt research_interests max_papers
    (listing_loop 1 (slice_to 150 papers) []).

(** A computation that returns has [line] as its last output. *)
Definition ends_with (line : text) (c : io unit) : Prop :=
  forall t, c = (t, Return tt) -> last t = Some (Print line).

(** A world with two feeds, a key and a model that answers. *)
Definition ready_world : world :=
  {| environ := {[ str "GEMINI_API_KEY" := str "k" ]};
     feed_entries := feed_entries sample_world;
     model_reply := fun _ => inr (str "### 1. A1");
     today := str "2025-01-06";
     today_long := str "January 06, 2025";
     smtp_connect := fun _ _ => None;
     smtp_login := fun _ _ => None;
     smtp_send := fun _ => None |}.

(** * Properties of the engine *)


Section RepeatFacts.
Context {R : Type} (k : cls) (cont : text -> nat -> option R).

Lemma max_until_sound s pos r :
  max_until k cont s pos = Some r ->
  exists a b, s = a ++ b /\ matches k a /\ cont b (pos + length a) = Some r.
Proof.
  revert pos; induction s as [|c s IH]; intros pos H; simpl in H.
  - exists [], []. rewrite Nat.add_0_r. repeat split; [constructor | done].
  - destruct (cls_match k c) eqn:Hc.
    + destruct (max_until k cont s (S pos)) as [r'|] eqn:Hm.
      * injection H as ->. destruct (IH _ Hm) as (a & b & -> & Ha & Hk).
        exists (c :: a), b. repeat split; [by constructor|].
        simpl. by rewrite Nat.add_succ_r.
      * exists [], (c :: s). rewrite Nat.add_0_r.
        repeat split; [constructor | done].
    + exists [], (c :: s). rewrite Nat.add_0_r.
      repeat split; [constructor | done].
Qed.

Lemma min_until_sound s pos r :
  min_until k cont s pos = Some r ->
  exists a b, s = a ++ b /\ matches k a /\ cont b (pos + length a) = Some r.
Proof.
  revert pos; induction s as [|c s IH]; intros pos H; simpl in H.
  - destruct (cont [] pos) eqn:Hk; [|done]. injection H as ->.
    exists [], []. rewrite Nat.add_0_r. repeat split; [constructor | done].
  - destruct (cont (c :: s) pos) eqn:Hk.
    + injection H as ->. exists [], (c :: s). rewrite Nat.add_0_r.
      repeat split; [constructor | done].
    + destruct (cls_match k c) eqn:Hc; [|done].
      destruct (IH _ H) as (a & b & -> & Ha & Hb).
      exists (c :: a), b. repeat split; [by constructor|].
      simpl. by rewrite Nat.add_succ_r.
Qed.


(** Lazy repetition fails when the rest of the pattern fails everywhere. *)
Lemma min_until_none s pos :
  (forall a b q, s = a ++ b -> cont b q = None) ->
  min_until k cont s pos = None.
Proof.
  revert pos; induction s as [|c s IH]; intros pos H; simpl.
  - by rewrite (H [] []).
  - rewrite (H [] (c :: s)) by done.
    destruct (cls_match k c); [|done].
    apply IH. intros a b q ->. by apply (H (c :: a) b).
Qed.

(** Lazy repetition stops at the first place where the rest matches. *)
Lemma min_until_first a b pos r :
  matches k a ->
  (forall a1 a2 q, a = a1 ++ a2 -> a2 <> [] -> cont (a2 ++ b) q = None) ->
  cont b (pos + length a) = Some r ->
  min_until k cont (a ++ b) pos = Some r.
Proof.
  intros Ha. revert pos.
  induction Ha as [|c a Hc Ha IH]; intros pos Hn Hk; simpl in *.
  - rewrite Nat.add_0_r in Hk.
    destruct b; simpl; by rewrite Hk.
  - rewrite (Hn [] (c :: a)) by done. rewrite Hc. apply IH.
    + intros a1 a2 q -> Hne. by apply (Hn (c :: a1) a2).
    + by rewrite Nat.add_succ_r in Hk.
Qed.

End RepeatFacts.

(** ** Unfolding [exec] one operation at a time *)

Lemma exec_one k p c s pos m :
  exec (ONE k :: p) (c :: s) pos m
  = if cls_match k c then exec p s (S pos) m else None.
Proof. done. Qed.

Lemma exec_max k p c s pos m :
  exec (MAX_REPEAT1 k :: p) (c :: s) pos m
  = if cls_match k c
    then max_until k (fun t q => exec p t q m) s (S pos) else None.
Proof. done. Qed.

Lemma exec_min k p c s pos m :
  exec (MIN_REPEAT1 k :: p) (c :: s) pos m
  = if cls_match k c
    then min_until k (fun t q => exec p t q m) s (S pos) else None.
Proof. done. Qed.

Lemma exec_mark i p s pos m :
  exec (MARK i :: p) s pos m = exec p s pos ((i, pos) :: m).
Proof. done. Qed.

Lemma exec_lit c p s pos m :
  exec (ONE (LITERAL c) :: p) (c :: s) pos m = exec p s (S pos) m.
Proof. rewrite exec_one. simpl. by rewrite N.eqb_refl. Qed.

Lemma exec_advances p s pos m n m' :
  exec p s pos m = Some (n, m') -> pos + min_len p <= n.
Proof.
  revert s pos m. induction p as [|o p IH]; intros s pos m H.
  - simpl in *. injection H as <- _. lia.
  - destruct o as [k|k|k|i].
    + destruct s as [|c s]; [done|]. rewrite exec_one in H.
      destruct (cls_match k c); [|done]. apply IH in H. simpl. lia.
    + destruct s as [|c s]; [done|]. rewrite exec_max in H.
      destruct (cls_match k c); [|done].
      apply max_until_sound in H as (a & b & _ & _ & H).
      apply IH in H. simpl. lia.
    + destruct s as [|c s]; [done|]. rewrite exec_min in H.
      destruct (cls_match k c); [|done].
      apply min_until_sound in H as (a & b & _ & _ & H).
      apply IH in H. simpl. lia.
    + rewrite exec_mark in H. apply IH in H. simpl. lia.
Qed.

(** The patterns of the renderer never match the empty text. *)
Lemma exec_consumes p s n m :
  p ∈ [heading_re; bold_re; link_re] ->
  exec p s 0 [] = Some (n, m) -> 3 <= n.
Proof.
  rewrite !elem_of_cons, elem_of_nil.
  intros [->|[->|[->|[]]]] H; apply exec_advances in H; simpl in H; lia.
Qed.

(** ** Facts about [re_sub] *)

Lemma exec_first_literal c p x s pos m :
  x <> c -> exec (ONE (LITERAL c) :: p) (x :: s) pos m = None.
Proof.
  intros Hx. simpl. by destruct (N.eqb_spec x c).
Qed.

Lemma sub_from_skip p tpl a b :
  sub_from p tpl (a ++ b) (length a) = sub_from p tpl b 0.
Proof. induction a as [|c a IH]; [by destruct b | done]. Qed.

Lemma sub_from_match p tpl c s n m :
  exec p (c :: s) 0 [] = Some (S n, m) ->
  sub_from p tpl (c :: s) 0 = expand tpl m (c :: s) ++ sub_from p tpl s n.
Proof. intros H. simpl. by rewrite H. Qed.

(** Where no attempt succeeds the text is copied. *)
Lemma sub_from_copy p tpl a b :
  (forall a1 a2, a = a1 ++ a2 -> a2 <> [] -> exec p (a2 ++ b) 0 [] = None) ->
  sub_from p tpl (a ++ b) 0 = a ++ sub_from p tpl b 0.
Proof.
  induction a as [|c a IH]; intros H; [done|].
  assert (H0 := H [] (c :: a) eq_refl). simpl in *.
  rewrite H0 by done. f_equal.
  apply IH. intros a1 a2 -> Hne. by apply (H (c :: a1) a2).
Qed.

Lemma sub_from_copy_literal c p tpl a b :
  c ∉ a ->
  sub_from (ONE (LITERAL c) :: p) tpl (a ++ b) 0
  = a ++ sub_from (ONE (LITERAL c) :: p) tpl b 0.
Proof.
  intros Hc. apply sub_from_copy. intros a1 [|x a2] -> Hne; [done|].
  apply exec_first_literal. intros ->. apply Hc. set_solver.
Qed.

Lemma re_sub_no_match p tpl s :
  has_match p s = false -> re_sub p tpl s = s.
Proof.
  unfold re_sub. induction s as [|c s IH]; [done|]. simpl.
  destruct (exec p (c :: s) 0 []) as [[[|n] m]|]; try done;
    intros H; f_equal; auto.
Qed.

Lemma has_match_false p s :
  (forall a b, s = a ++ b -> exec p b 0 [] = None) -> has_match p s = false.
Proof.
  induction s as [|c s IH]; intros H; simpl.
  - by rewrite (H [] []).
  - rewrite (H [] (c :: s)) by done. apply IH.
    intros a b ->. by apply (H (c :: a) b).
Qed.

Lemma slice_app {A} (a t b : list A) n :
  n = length a + length t ->
  slice (length a) n (a ++ t ++ b) = t.
Proof.
  intros ->. unfold slice. rewrite drop_app_length.
  replace (length a + length t - length a) with (length t) by lia.
  by rewrite take_app_length.
Qed.

Lemma slice_at {A} (a t b s : list A) i n :
  s = a ++ t ++ b -> i = length a -> n = i + length t -> slice i n s = t.
Proof. intros -> -> ->. by apply slice_app. Qed.

(** ** The heading pattern *)





(** ** The four passes on the example of the specification *)

(** C4: on [### Title\n\n**Bold** and [text](http://x)] the passes give
    one heading element, one double break after it, one strong element
    and one anchor; the rest of the text is as it was. *)
Theorem passes_example :
  substitution_passes
    (str "### Title" ++ [NL; NL] ++ str "**Bold** and [text](http://x)")
  = str "<h3>Title</h3>" ++ str "<br><br>" ++ str "<strong>Bold</strong>"
    ++ str " and "
    ++ (str "<a href=" ++ [QUOTE] ++ str "http://x" ++ [QUOTE] ++ str ">text</a>")
  /\ (forall needle,
        needle ∈ [str "<h3>"; str "<strong>"; str "<a href="; str "<br><br>";
                  str "<h3>Title</h3>"; str "<strong>Bold</strong>";
                  str "<a href=" ++ [QUOTE] ++ str "http://x" ++ [QUOTE]
                    ++ str ">text</a>"] ->
        count_sub needle
          (substitution_passes
             (str "### Title" ++ [NL; NL]
              ++ str "**Bold** and [text](http://x)")) = 1).
Proof.
  split; [vm_compute; reflexivity|].
  intros needle Hn. rewrite !elem_of_cons, elem_of_nil in Hn.
  destruct Hn as [->|[->|[->|[->|[->|[->|[->|[]]]]]]]];
    vm_compute; reflexivity.
Qed.

(** ** Text without markers *)

Lemma replace_absent old new s :
  count_sub old s = 0 -> replace old new s = s.
Proof.
  unfold replace. induction s as [|c s IH]; [done|]. simpl.
  destruct (is_prefix old (c :: s)); [done|]. simpl.
  intros H. f_equal. auto.
Qed.

(** A text without the first character of a pattern has no match of it. *)
Lemma has_match_literal c p s :
  c ∉ s -> has_match (ONE (LITERAL c) :: p) s = false.
Proof.
  intros Hc. apply has_match_false. intros a [|x b] ->; [done|].
  apply exec_first_literal. intros ->. apply Hc. set_solver.
Qed.

Lemma no_marker_chars s :
  HASH ∉ s -> STAR ∉ s -> LBRACKET ∉ s ->
  has_match heading_re s = false /\ has_match bold_re s = false
  /\ has_match link_re s = false.
Proof. intros. repeat split; by apply has_match_literal. Qed.



(** ** Bold and link spans *)

Lemma exec_lit_inv c p s pos m r :
  exec (ONE (LITERAL c) :: p) s pos m = Some r ->
  exists s', s = c :: s' /\ exec p s' (S pos) m = Some r.
Proof.
  destruct s as [|x s]; [done|]. rewrite exec_one. simpl.
  destruct (N.eqb_spec x c) as [->|]; [eauto | done].
Qed.

Lemma exec_min_inv k p s pos m r :
  exec (MIN_REPEAT1 k :: p) s pos m = Some r ->
  exists c a b, s = (c :: a) ++ b /\ cls_match k c = true /\ matches k a /\
                exec p b (S pos + length a) m = Some r.
Proof.
  destruct s as [|c s]; [done|]. rewrite exec_min.
  destruct (cls_match k c) eqn:Hc; [|done]. intros H.
  apply min_until_sound in H as (a & b & -> & Ha & Hb). by exists c, a, b.
Qed.

Lemma exec_literal_absent c p s q m :
  c ∉ s -> exec (ONE (LITERAL c) :: p) s q m = None.
Proof.
  destruct s as [|x s]; [done|]. intros Hc.
  apply exec_first_literal. intros ->. apply Hc. set_solver.
Qed.

Lemma sub_from_nomatch p tpl c s :
  exec p (c :: s) 0 [] = None ->
  sub_from p tpl (c :: s) 0 = c :: sub_from p tpl s 0.
Proof. intros H. simpl. by rewrite H. Qed.

Lemma re_sub_literal_absent c p tpl s :
  c ∉ s -> sub_from (ONE (LITERAL c) :: p) tpl s 0 = s.
Proof.
  intros Hc. apply (re_sub_no_match (ONE (LITERAL c) :: p)).
  by apply has_match_literal.
Qed.

(** A match of the bold pattern encloses at least one character. *)
Lemma bold_exec_inv s n m :
  exec bold_re s 0 [] = Some (n, m) ->
  exists c a rest,
    s = [STAR; STAR] ++ (c :: a) ++ [STAR; STAR] ++ rest /\
    n = 5 + length a /\ m = [(1, 3 + length a); (0, 2)].
Proof.
  unfold bold_re. intros H.
  apply exec_lit_inv in H as (s1 & -> & H).
  apply exec_lit_inv in H as (s2 & -> & H).
  rewrite exec_mark in H.
  apply exec_min_inv in H as (c & a & b & -> & _ & _ & H).
  rewrite exec_mark in H.
  apply exec_lit_inv in H as (s3 & -> & H).
  apply exec_lit_inv in H as (s4 & -> & H).
  simpl in H. injection H as <- <-. by exists c, a, s4.
Qed.

(** A match of the link pattern has a label and a target of at least one
    character each. *)
Lemma link_exec_inv s n m :
  exec link_re s 0 [] = Some (n, m) ->
  exists c a d b rest,
    s = [LBRACKET] ++ (c :: a) ++ [RBRACKET; LPAREN] ++ (d :: b)
        ++ [RPAREN] ++ rest /\
    n = 6 + length a + length b /\
    m = [(3, 5 + length a + length b); (2, 4 + length a);
         (1, 2 + length a); (0, 1)].
Proof.
  unfold link_re. intros H.
  apply exec_lit_inv in H as (s1 & -> & H).
  rewrite exec_mark in H.
  apply exec_min_inv in H as (c & a & s2 & -> & _ & _ & H).
  rewrite exec_mark in H.
  apply exec_lit_inv in H as (s3 & -> & H).
  apply exec_lit_inv in H as (s4 & -> & H).
  rewrite exec_mark in H.
  apply exec_min_inv in H as (d & b & s5 & -> & _ & _ & H).
  rewrite exec_mark in H.
  apply exec_lit_inv in H as (s6 & -> & H).
  simpl in H. injection H as <- <-. exists c, a, d, b, s6. split; [done|].
  split; [lia|]. repeat f_equal; lia.
Qed.

Lemma bold_group_nonempty s n m :
  exec bold_re s 0 [] = Some (n, m) -> group 1 m s <> [].
Proof.
  intros H. apply bold_exec_inv in H as (c & a & rest & -> & _ & ->).
  unfold group. cbn [Nat.sub Nat.mul Nat.add mark_get Nat.eqb].
  rewrite (slice_app [STAR; STAR] (c :: a)); [done | simpl; lia].
Qed.

Lemma link_groups_nonempty s n m :
  exec link_re s 0 [] = Some (n, m) ->
  group 1 m s <> [] /\ group 2 m s <> [].
Proof.
  intros H. apply link_exec_inv in H as (c & a & d & b & rest & -> & _ & ->).
  unfold group. cbn [Nat.sub Nat.mul Nat.add mark_get Nat.eqb]. split.
  - rewrite (slice_app [LBRACKET] (c :: a)); [done | simpl; lia].
  - rewrite (slice_at ([LBRACKET] ++ (c :: a) ++ [RBRACKET; LPAREN])
               (d :: b) ([RPAREN] ++ rest)); [done|..].
    + by rewrite <- !app_assoc.
    + rewrite !length_app. simpl. lia.
    + simpl. lia.
Qed.

(** Two character constants differ. *)
Ltac distinct_chars :=
  let H := fresh in intros H; vm_compute in H; discriminate H.


Lemma bold_pass_four_stars pre post :
  STAR ∉ pre -> STAR ∉ post ->
  bold_pass (pre ++ [STAR; STAR; STAR; STAR] ++ post)
  = pre ++ [STAR; STAR; STAR; STAR] ++ post.
Proof.
  intros Hpre Hpost. unfold bold_pass, re_sub, bold_re.
  rewrite sub_from_copy_literal by done. f_equal. cbn [app].
  assert (Htail : forall a b q m, post = a ++ b ->
            exec [MARK 1; ONE (LITERAL STAR); ONE (LITERAL STAR)] b q m = None).
  { intros a b q m ->. rewrite exec_mark. apply exec_literal_absent.
    set_solver. }
  rewrite sub_from_nomatch; [f_equal|].
  rewrite sub_from_nomatch; [f_equal|].
  rewrite sub_from_nomatch; [f_equal|].
  rewrite sub_from_nomatch; [f_equal|].
  - by apply re_sub_literal_absent.
  - rewrite exec_lit. by apply exec_literal_absent.
  - rewrite !exec_lit, exec_mark.
    destruct post as [|c post]; [done|]. rewrite exec_min.
    destruct (cls_match ANY c); [|done].
    apply min_until_none. intros a b q ->. by apply (Htail (c :: a)).
  - rewrite !exec_lit, exec_mark, exec_min. cbn [cls_match].
    change (negb (STAR =? NL)%N) with true. cbv iota.
    apply min_until_none. intros a b q. apply Htail.
  - rewrite !exec_lit, exec_mark, exec_min. cbn [cls_match].
    change (negb (STAR =? NL)%N) with true. cbv iota.
    apply min_until_none. intros [|x a] b q E; simpl in E.
    + subst b. rewrite exec_mark, exec_lit. by apply exec_literal_absent.
    + injection E as _ E. by apply (Htail a).
Qed.

Lemma link_pass_empty_form pre post :
  LBRACKET ∉ pre -> LBRACKET ∉ post -> RBRACKET ∉ post ->
  link_pass (pre ++ [LBRACKET; RBRACKET; LPAREN; RPAREN] ++ post)
  = pre ++ [LBRACKET; RBRACKET; LPAREN; RPAREN] ++ post.
Proof.
  intros Hpre Hpost Hpost'. unfold link_pass, re_sub, link_re.
  rewrite sub_from_copy_literal by done. f_equal. cbn [app].
  rewrite sub_from_nomatch; [f_equal|].
  - apply re_sub_literal_absent.
    rewrite !not_elem_of_cons.
    repeat split; first [done | distinct_chars].
  - rewrite exec_lit, exec_mark, exec_min. cbn [cls_match].
    change (negb (RBRACKET =? NL)%N) with true. cbv iota.
    apply min_until_none. intros a b q E. rewrite exec_mark.
    apply exec_literal_absent. intros Hb.
    assert (Hin : RBRACKET ∈ LPAREN :: RPAREN :: post)
      by (rewrite E; set_solver).
    rewrite !elem_of_cons in Hin.
    destruct Hin as [Hin|[Hin|Hin]]; [by vm_compute in Hin.. | done].
Qed.

(** The text that a match spans is longer than the four characters of
    [****] and of [[]()]. *)
Lemma bold_span_not_empty_pair s n m :
  exec bold_re s 0 [] = Some (n, m) -> take n s <> str "****".
Proof.
  intros H E. apply bold_exec_inv in H as (c & a & rest & -> & -> & _).
  change (str "****") with [STAR; STAR; STAR; STAR] in E.
  apply (f_equal length) in E. rewrite length_take, !length_app in E.
  cbn [length] in E. lia.
Qed.

Lemma link_span_not_empty_form s n m :
  exec link_re s 0 [] = Some (n, m) -> take n s <> str "[]()".
Proof.
  intros H E.
  apply link_exec_inv in H as (c & a & d & b & rest & -> & -> & _).
  change (str "[]()") with [LBRACKET; RBRACKET; LPAREN; RPAREN] in E.
  apply (f_equal length) in E. rewrite length_take, !length_app in E.
  cbn [length] in E. lia.
Qed.

(** C9, as the code has it: wherever the bold or the link pattern
    matches, each captured group holds at least one character and the
    matched text is not the bare [****] or [[]()], so that no empty strong
    element and no anchor with an empty label or target is ever written;
    and the sequences [****] and [[]()], alone or in text without further
    asterisks and square brackets, come out of the bold pass and of the
    link pass as they went in.  Next to further asterisks or brackets they
    need not (see the counterexample below). *)
Theorem empty_spans_not_rewritten :
  (forall s n m, exec bold_re s 0 [] = Some (n, m) ->
     group 1 m s <> [] /\ take n s <> str "****")
  /\ (forall s n m, exec link_re s 0 [] = Some (n, m) ->
        group 1 m s <> [] /\ group 2 m s <> [] /\ take n s <> str "[]()")
  /\ bold_pass (str "****") = str "****"
  /\ link_pass (bold_pass (str "****")) = str "****"
  /\ link_pass (str "[]()") = str "[]()"
  /\ link_pass (bold_pass (str "[]()")) = str "[]()"
  /\ (forall pre post, plain pre -> plain post ->
        bold_pass (pre ++ str "****" ++ post) = pre ++ str "****" ++ post
        /\ link_pass (pre ++ str "****" ++ post) = pre ++ str "****" ++ post
        /\ bold_pass (pre ++ str "[]()" ++ post) = pre ++ str "[]()" ++ post
        /\ link_pass (pre ++ str "[]()" ++ post) = pre ++ str "[]()" ++ post).
Proof.
  repeat apply conj; try (vm_compute; reflexivity).
  - intros s n m H. split;
      [by apply (bold_group_nonempty s n) | by apply (bold_span_not_empty_pair s n m)].
  - intros s n m H. destruct (link_groups_nonempty s n m H).
    repeat split; try done. by apply (link_span_not_empty_form s n m).
  - intros pre post (Hs1 & Hl1 & Hr1) (Hs2 & Hl2 & Hr2).
    change (str "****") with [STAR; STAR; STAR; STAR].
    change (str "[]()") with [LBRACKET; RBRACKET; LPAREN; RPAREN].
    repeat apply conj.
    + by apply bold_pass_four_stars.
    + apply re_sub_literal_absent.
      rewrite !not_elem_of_app, !not_elem_of_cons.
      repeat split; first [done | distinct_chars | apply not_elem_of_nil].
    + apply re_sub_literal_absent.
      rewrite !not_elem_of_app, !not_elem_of_cons.
      repeat split; first [done | distinct_chars | apply not_elem_of_nil].
    + by apply link_pass_empty_form.
Qed.

Lemma empty_spans_not_rewritten_witness :
  plain (str "a ") /\ plain (str " b") /\
  exec bold_re (str "**x** y") 0 [] = Some (5, [(1, 3); (0, 2)]) /\
  group 1 [(1, 3); (0, 2)] (str "**x** y") <> [] /\
  bold_pass (str "a " ++ str "****" ++ str " b")
  = str "a " ++ str "****" ++ str " b".
Proof.
  assert (H1 : plain (str "a "))
    by (repeat apply conj; apply (bool_decide_unpack _); vm_compute; exact I).
  assert (H2 : plain (str " b"))
    by (repeat apply conj; apply (bool_decide_unpack _); vm_compute; exact I).
  assert (H3 : exec bold_re (str "**x** y") 0 [] = Some (5, [(1, 3); (0, 2)]))
    by (vm_compute; reflexivity).
  exact (conj H1 (conj H2 (conj H3 (conj
    (proj1 (proj1 empty_spans_not_rewritten _ _ _ H3))
    (proj1 (proj2 (proj2 (proj2 (proj2 (proj2 (proj2
       empty_spans_not_rewritten))))) (str "a ") (str " b") H1 H2)))))).
Defined.

(** C9, counterexample: the sequences do not pass through unchanged in
    every text.  With a fifth asterisk the first four are rewritten: the
    span is the single asterisk between two pairs; and an empty link form
    followed by a link loses its bracket and becomes part of the label of
    that link. *)
Lemma empty_spans_inside_longer_spans :
  str "*****" = str "****" ++ str "*"
  /\ bold_pass (str "****" ++ str "*") = str "<strong>*</strong>"
  /\ bold_pass (str "****" ++ str "*") <> str "****" ++ str "*"
  /\ str "[]() [a](b)" = str "[]()" ++ str " [a](b)"
  /\ link_pass (str "[]()" ++ str " [a](b)")
     = str "<a href=" ++ [QUOTE] ++ str "b" ++ [QUOTE] ++ str ">]() [a</a>"
  /\ link_pass (str "[]()" ++ str " [a](b)") <> str "[]()" ++ str " [a](b)".
Proof.
  repeat apply conj; try (vm_compute; reflexivity);
    vm_compute; discriminate.
Qed.

(** * Delivery *)

Lemma email_method_print (config : gmap text value) :
  config !! str "email_method" = None \/
  config !! str "email_method" = Some (VStr (str "print")) ->
  default (VStr (str "print")) (config !! str "email_method")
  = VStr (str "print").
Proof. by intros [-> | ->]. Qed.


(** C7: in gmail mode, when either credential is missing from the
    environment, the call raises before any event: nothing is printed and
    no connection is opened. *)
Theorem send_email_gmail_no_credentials (w : world) (html_content : text)
  (config : gmap text value) :
  config !! str "email_method" = Some (VStr (str "gmail")) ->
  environ w !! str "GMAIL_ADDRESS" = None \/
  environ w !! str "GMAIL_APP_PASSWORD" = None ->
  send_email w html_content config
  = ([], Raise (ValueError (str "Gmail credentials not found. Set GMAIL_ADDRESS and GMAIL_APP_PASSWORD in secrets."))).
Proof.
  intros Hm Henv. unfold send_email. rewrite Hm. cbn [default].
  rewrite decide_False by (intros [=]).
  rewrite decide_True by done.
  destruct Henv as [-> | ->]; cbn [falsy orb]; [done|].
  by rewrite orb_true_r.
Qed.

(** C8: any other value of [email_method] raises the configuration error
    that names it, before any event. *)
Theorem send_email_unknown_method (w : world) (html_content : text)
  (config : gmap text value) (v : value) :
  config !! str "email_method" = Some v ->
  v <> VStr (str "print") -> v <> VStr (str "gmail") ->
  send_email w html_content config
  = ([], Raise (ValueError (str "Unknown email method: " ++ format v
                            ++ str ". Use 'print' or 'gmail'"))).
Proof.
  intros Hm Hp Hg. unfold send_email. rewrite Hm. cbn [default].
  by rewrite !decide_False by done.
Qed.


Lemma send_email_gmail_no_credentials_witness :
  gmail_config !! str "email_method" = Some (VStr (str "gmail")) /\
  (environ quiet_world !! str "GMAIL_ADDRESS" = None \/
   environ quiet_world !! str "GMAIL_APP_PASSWORD" = None) /\
  send_email quiet_world (str "<html>") gmail_config
  = ([], Raise (ValueError (str "Gmail credentials not found. Set GMAIL_ADDRESS and GMAIL_APP_PASSWORD in secrets."))).
Proof.
  assert (H1 : gmail_config !! str "email_method" = Some (VStr (str "gmail")))
    by (vm_compute; reflexivity).
  assert (H2 : environ quiet_world !! str "GMAIL_ADDRESS" = None \/
               environ quiet_world !! str "GMAIL_APP_PASSWORD" = None)
    by (left; vm_compute; reflexivity).
  exact (conj H1 (conj H2
           (send_email_gmail_no_credentials quiet_world (str "<html>")
              gmail_config H1 H2))).
Defined.

Lemma send_email_unknown_method_witness :
  smtp_config !! str "email_method" = Some (VStr (str "smtp")) /\
  VStr (str "smtp") <> VStr (str "print") /\
  VStr (str "smtp") <> VStr (str "gmail") /\
  send_email quiet_world (str "<html>") smtp_config
  = ([], Raise (ValueError (str "Unknown email method: "
                            ++ format (VStr (str "smtp"))
                            ++ str ". Use 'print' or 'gmail'"))).
Proof.
  assert (H1 : smtp_config !! str "email_method" = Some (VStr (str "smtp")))
    by (vm_compute; reflexivity).
  assert (H2 : VStr (str "smtp") <> VStr (str "print"))
    by (vm_compute; discriminate).
  assert (H3 : VStr (str "smtp") <> VStr (str "gmail"))
    by (vm_compute; discriminate).
  exact (conj H1 (conj H2 (conj H3
           (send_email_unknown_method quiet_world (str "<html>") smtp_config
              _ H1 H2 H3)))).
Defined.

(** * Feed Fetcher *)

Lemma append_entries_spec f es acc :
  append_entries f es acc = acc ++ map (paper_of f) es.
Proof.
  revert acc. induction es as [|e es IH]; intros acc; simpl.
  - by rewrite app_nil_r.
  - by rewrite IH, <- app_assoc.
Qed.

Lemma fetch_loop_spec w feeds acc :
  Forall (feed_ok w) feeds ->
  fetch_loop w feeds acc
  = (fetch_trace feeds, Return (acc ++ in_source_order w feeds)).
Proof.
  intros Hok. revert acc.
  induction Hok as [|f feeds Hf Hok IH]; intros acc.
  - simpl. by rewrite app_nil_r.
  - cbn [fetch_loop]. unfold feedparser_parse. rewrite Hf.
    unfold mbind, io_bind, print, emit. cbn [of_sum].
    rewrite IH, append_entries_spec, <- app_assoc. reflexivity.
Qed.

Lemma in_source_order_length w feeds :
  length (in_source_order w feeds)
  = sum_list_with (fun f => 50 `min` length (entries_available w f)) feeds.
Proof.
  unfold in_source_order. induction feeds as [|f feeds IH]; [done|].
  cbn [map concat sum_list_with].
  by rewrite length_app, length_map, length_take, IH.
Qed.

(** C3: when every feed is retrieved, the Fetcher returns the records in
    source-then-entry order, and their number is the sum over the sources
    of min(50, entries available). *)
Theorem fetch_papers_order_and_length (w : world) (feeds : list feed_source) :
  Forall (feed_ok w) feeds ->
  exists papers,
    fetch_papers w feeds = (fetch_trace feeds, Return papers)
    /\ papers = in_source_order w feeds
    /\ length papers
       = sum_list_with (fun f => 50 `min` length (entries_available w f))
           feeds.
Proof.
  intros Hok. exists (in_source_order w feeds). split; [|split; [done|]].
  - unfold fetch_papers. by rewrite fetch_loop_spec.
  - apply in_source_order_length.
Qed.

Lemma fetch_papers_order_and_length_witness :
  Forall (feed_ok sample_world) sample_feeds /\
  exists papers,
    fetch_papers sample_world sample_feeds
    = (fetch_trace sample_feeds, Return papers)
    /\ papers = in_source_order sample_world sample_feeds
    /\ length papers
       = sum_list_with
           (fun f => 50 `min` length (entries_available sample_world f))
           sample_feeds.
Proof.
  assert (H : Forall (feed_ok sample_world) sample_feeds)
    by (repeat constructor).
  exact (conj H (fetch_papers_order_and_length sample_world sample_feeds H)).
Defined.

(** * Ranking Client *)

Lemma listing_loop_spec i ps acc :
  listing_loop i ps acc
  = acc ++ imap (fun j p => listing_entry (i + j) (title p) (source p)
                              (summary p) (link p)) ps.
Proof.
  revert i acc. induction ps as [|p ps IH]; intros i acc; simpl.
  - by rewrite app_nil_r.
  - rewrite IH, <- app_assoc, Nat.add_0_r. cbn [app]. do 2 f_equal.
    apply imap_ext. intros j q _. simpl. by rewrite Nat.add_succ_r.
Qed.

Lemma ranking_no_key w papers ri mp :
  environ w !! str "GEMINI_API_KEY" = None ->
  filter_and_rank_papers w papers ri mp
  = ([], Raise (ValueError (str "GEMINI_API_KEY not found in environment variables"))).
Proof. intros H. unfold filter_and_rank_papers. by rewrite H. Qed.

Lemma ranking_with_key w papers ri mp key :
  environ w !! str "GEMINI_API_KEY" = Some key -> key <> [] ->
  filter_and_rank_papers w papers ri mp
  = ([GenaiConfigure key; GenaiModel (str "gemini-2.0-flash-exp");
      GenerateContent
        (build_prompt ri mp
           (imap (fun j p => listing_entry (S j) (title p) (source p)
                               (summary p) (link p))
              (take 150 papers)))],
     of_sum (model_reply w
        (build_prompt ri mp
           (imap (fun j p => listing_entry (S j) (title p) (source p)
                               (summary p) (link p))
              (take 150 papers))))).
Proof.
  intros H Hk. unfold filter_and_rank_papers. rewrite H.
  destruct key as [|c key]; [done|]. cbn [falsy default].
  rewrite listing_loop_spec. cbn [app]. unfold slice_to, generate_content.
  unfold mbind, mret, io_bind, io_ret, emit.
  by destruct (of_sum _).
Qed.

(** C2: the call depends on the first 150 records only: with a key in the
    environment the single prompt it sends lists the records of
    [papers[:150]], numbered from 1, and no other; without the key it
    raises the credential error before any event, whatever the input. *)
Theorem ranking_truncates_and_checks_key (w : world) (papers : list paper)
  (research_interests max_papers : value) :
  filter_and_rank_papers w papers research_interests max_papers
  = filter_and_rank_papers w (take 150 papers) research_interests max_papers
  /\ length (listing_loop 1 (slice_to 150 papers) [])
     = 150 `min` length papers
  /\ (forall key,
        environ w !! str "GEMINI_API_KEY" = Some key -> key <> [] ->
        fst (filter_and_rank_papers w papers research_interests max_papers)
        = [GenaiConfigure key; GenaiModel (str "gemini-2.0-flash-exp");
           GenerateContent
             (build_prompt research_interests max_papers
                (imap (fun j p => listing_entry (S j) (title p) (source p)
                                    (summary p) (link p))
                   (take 150 papers)))])
  /\ (environ w !! str "GEMINI_API_KEY" = None ->
      filter_and_rank_papers w papers research_interests max_papers
      = ([], Raise (ValueError (str "GEMINI_API_KEY not found in environment variables")))).
Proof.
  repeat apply conj.
  - unfold filter_and_rank_papers, slice_to. by rewrite take_take, Nat.min_id.
  - rewrite listing_loop_spec. cbn [app]. unfold slice_to.
    by rewrite length_imap, length_take.
  - intros key H Hk. by rewrite (ranking_with_key _ _ _ _ key).
  - apply ranking_no_key.
Qed.

Lemma ranking_truncates_and_checks_key_witness :
  environ quiet_world !! str "GEMINI_API_KEY" = None /\
  filter_and_rank_papers quiet_world [] (VStr (str "trade")) (VOther (str "10"))
  = ([], Raise (ValueError (str "GEMINI_API_KEY not found in environment variables"))).
Proof.
  assert (H : environ quiet_world !! str "GEMINI_API_KEY" = None)
    by (vm_compute; reflexivity).
  exact (conj H
    (proj2 (proj2 (proj2
       (ranking_truncates_and_checks_key quiet_world []
          (VStr (str "trade")) (VOther (str "10"))))) H)).
Defined.

(** * The Ranking Client and its argument *)

Section StoreFrame.
Import Store.
Context (h0 : heap).

Lemma frame_refl : frame h0 h0.
Proof. by intros l _. Qed.

Lemma keeps_bind {A B} (c : hio A) (f : A -> hio B) (Q : A -> Prop)
  (R : B -> Prop) :
  keeps h0 c Q -> (forall a, Q a -> keeps h0 (f a) R) ->
  keeps h0 (c ≫= f) R.
Proof.
  intros Hc Hk h Hf. destruct (Hc h Hf) as [Hf' HQ].
  unfold mbind, hio_bind. destruct (c h) as [[t [a|e]] h']; simpl in *.
  - destruct (Hk a (HQ a eq_refl) h' Hf') as [Hf'' HR].
    destruct (f a h') as [[t' r] h'']; simpl in *. by split.
  - split; [done | by intros a].
Qed.

Lemma keeps_weaken {A} (c : hio A) (Q R : A -> Prop) :
  keeps h0 c Q -> (forall a, Q a -> R a) -> keeps h0 c R.
Proof. intros Hc HQR h Hf. destruct (Hc h Hf). naive_solver. Qed.

Lemma keeps_ret {A} (a : A) : keeps h0 (mret a) (fun _ => True).
Proof. by intros h Hf. Qed.

Lemma keeps_lift {A} (x : io A) : keeps h0 (lift x) (fun _ => True).
Proof. by intros h Hf. Qed.

(** A new object is none of the objects of [h0]. *)
Lemma keeps_alloc o : keeps h0 (alloc o) (fun l => h0 !! l = None).
Proof.
  intros h Hf. unfold alloc. simpl.
  assert (Hnew : h0 !! fresh (dom h) = None).
  { destruct (h0 !! fresh (dom h)) eqn:E; [|done].
    assert (Hin : fresh (dom h) ∈ dom h).
    { apply elem_of_dom. rewrite (Hf _ (mk_is_Some _ _ E)). by rewrite E. }
    by apply is_fresh in Hin. }
  split.
  - intros l Hl. rewrite lookup_insert_ne; [by apply Hf|].
    intros <-. rewrite Hnew in Hl. by destruct Hl.
  - by intros a [= <-].
Qed.

Lemma keeps_list_items v : keeps h0 (list_items v) (fun _ => True).
Proof.
  intros h Hf. unfold list_items.
  destruct v as [s|l]; [done|]. by destruct (h !! l) as [[]|].
Qed.

Lemma keeps_list_slice_to n v :
  keeps h0 (list_slice_to n v) (fun l => h0 !! l = None).
Proof.
  unfold list_slice_to. eapply keeps_bind; [apply keeps_list_items|].
  intros items _. apply keeps_alloc.
Qed.

Lemma keeps_dict_getitem p key : keeps h0 (dict_getitem p key) (fun _ => True).
Proof.
  intros h Hf. unfold dict_getitem.
  destruct p as [s|l]; [done|]. by destruct (h !! l) as [[]|].
Qed.

(** Appending to an object that is not in [h0] changes nothing of [h0]. *)
Lemma keeps_list_append l x :
  h0 !! l = None -> keeps h0 (list_append l x) (fun _ => True).
Proof.
  intros Hl h Hf. unfold list_append.
  destruct (h !! l) as [[items|fields]|]; try done.
  split; [|done]. simpl. intros l' Hl'.
  rewrite lookup_insert_ne; [by apply Hf|].
  intros <-. rewrite Hl in Hl'. by destruct Hl'.
Qed.

Lemma keeps_for_enumerate i items body :
  (forall j p, keeps h0 (body j p) (fun _ => True)) ->
  keeps h0 (for_enumerate i items body) (fun _ => True).
Proof.
  intros Hb. revert i. induction items as [|p items IH]; intros i.
  - apply keeps_ret.
  - cbn [for_enumerate]. eapply keeps_bind; [apply Hb|]. intros _ _. apply IH.
Qed.

Lemma keeps_filter_and_rank_papers w papers ri mp :
  keeps h0 (Store.filter_and_rank_papers w papers ri mp) (fun _ => True).
Proof.
  unfold Store.filter_and_rank_papers.
  destruct (falsy _); [apply keeps_lift|].
  eapply keeps_bind; [apply keeps_lift|]. intros _ _.
  eapply keeps_bind; [apply keeps_lift|]. intros _ _.
  eapply keeps_bind; [apply keeps_alloc|]. intros papers_list Hnew.
  eapply keeps_bind; [apply keeps_list_slice_to|]. intros first _.
  eapply keeps_bind; [apply keeps_list_items|]. intros items _.
  eapply keeps_bind.
  { apply keeps_for_enumerate. intros j p. unfold listing_body.
    eapply keeps_bind; [apply keeps_dict_getitem|]. intros t _.
    eapply keeps_bind; [apply keeps_dict_getitem|]. intros src _.
    eapply keeps_bind; [apply keeps_dict_getitem|]. intros summ _.
    eapply keeps_bind; [apply keeps_dict_getitem|]. intros lnk _.
    by apply keeps_list_append. }
  intros _ _.
  eapply keeps_bind; [apply keeps_list_items|]. intros lines _.
  eapply keeps_bind; [apply keeps_lift|]. intros lines' _.
  eapply keeps_bind; [apply keeps_lift|]. intros response _.
  apply keeps_ret.
Qed.

End StoreFrame.

(** Whatever the store and the arguments, and whether it returns or
    raises, the call leaves every object that existed before it as it
    was. *)
Lemma ranking_frame w papers ri mp (h : Store.heap) :
  Store.frame h (snd (Store.filter_and_rank_papers w papers ri mp h)).
Proof.
  apply (keeps_filter_and_rank_papers h w papers ri mp h), frame_refl.
Qed.

Lemma holds_papers_frame (h h' : Store.heap) v ps :
  Store.frame h h' -> Store.holds_papers h v ps -> Store.holds_papers h' v ps.
Proof.
  intros Hf (l & ls & -> & Hl & Hrec). exists l, ls. repeat split.
  - by rewrite Hf.
  - eapply Forall2_impl; [done|]. intros r p Hr. simpl in *.
    by rewrite Hf.
Qed.

(** C10: the list passed to the Ranking Client and each record in it are
    after the call what they were before it, and so is every other object
    that existed before the call. *)
Theorem ranking_leaves_papers_unchanged (w : world) (h : Store.heap)
  (papers : Store.pyval) (ps : list paper)
  (research_interests max_papers : value) :
  Store.holds_papers h papers ps ->
  Store.holds_papers
    (snd (Store.filter_and_rank_papers w papers research_interests
            max_papers h)) papers ps
  /\ forall l o, h !! l = Some o ->
       snd (Store.filter_and_rank_papers w papers research_interests
              max_papers h) !! l = Some o.
Proof.
  intros Hp. split.
  - eapply holds_papers_frame; [apply ranking_frame | done].
  - intros l o Hl. by rewrite ranking_frame.
Qed.

(** ** The store model computes what the value model computes *)

Section StoreRefinement.
Import Store.

Lemma hio_bind_ret {A B} (c : hio A) (f : A -> hio B) h t a h' :
  c h = ((t, Return a), h') -> (c ≫= f) h = after t (f a h').
Proof.
  intros E. unfold mbind, hio_bind, after. rewrite E.
  by destruct (f a h') as [[t' r] h''].
Qed.

Lemma hio_bind_raise {A B} (c : hio A) (f : A -> hio B) h t e h' :
  c h = ((t, Raise e), h') -> (c ≫= f) h = ((t, Raise e), h').
Proof. intros E. unfold mbind, hio_bind. by rewrite E. Qed.

Lemma after_nil {A} (x : io A * heap) : after [] x = x.
Proof. by destruct x as [[t r] h]. Qed.

Lemma dict_getitem_paper (h : heap) r p key v :
  h !! r = Some (paper_dict p) ->
  (match paper_dict p with ODict f => f !! key | _ => None end) = Some v ->
  dict_getitem (Ref r) key h = (([], Return v), h).
Proof.
  intros Hr Hk. unfold dict_getitem. rewrite Hr. unfold paper_dict in *.
  unfold getitem. by rewrite Hk.
Qed.

Lemma listing_body_paper (h : heap) pl r p i acc :
  h !! r = Some (paper_dict p) ->
  h !! pl = Some (OList acc) ->
  listing_body pl i (Ref r) h
  = (([], Return tt),
     <[pl := OList (acc ++ [Str (listing_entry i (title p) (source p)
                                   (summary p) (link p))])]> h).
Proof.
  intros Hr Hpl. unfold listing_body.
  rewrite (hio_bind_ret _ _ h [] (title p) h), after_nil
    by (apply (dict_getitem_paper h r p); [done | by vm_compute]).
  rewrite (hio_bind_ret _ _ h [] (source p) h), after_nil
    by (apply (dict_getitem_paper h r p); [done | by vm_compute]).
  rewrite (hio_bind_ret _ _ h [] (summary p) h), after_nil
    by (apply (dict_getitem_paper h r p); [done | by vm_compute]).
  rewrite (hio_bind_ret _ _ h [] (link p) h), after_nil
    by (apply (dict_getitem_paper h r p); [done | by vm_compute]).
  unfold list_append. by rewrite Hpl.
Qed.

Lemma for_enumerate_listing (h : heap) pl ls ps i acc :
  h !! pl = Some (OList (Str <$> acc)) ->
  Forall2 (fun r p => r <> pl /\ h !! r = Some (paper_dict p)) ls ps ->
  for_enumerate i (Ref <$> ls) (listing_body pl) h
  = (([], Return tt), <[pl := OList (Str <$> listing_loop i ps acc)]> h).
Proof.
  revert h ps i acc.
  induction ls as [|r ls IH]; intros h ps i acc Hpl Hrec.
  - apply Forall2_nil_inv_l in Hrec as ->. simpl. by rewrite insert_id.
  - apply Forall2_cons_inv_l in Hrec as (p & ps' & [Hne Hr] & Hrec & ->).
    cbn [fmap list_fmap for_enumerate listing_loop].
    erewrite hio_bind_ret by (by apply listing_body_paper).
    rewrite after_nil.
    rewrite (IH _ ps' (S i)
               (acc ++ [listing_entry i (title p) (source p) (summary p)
                          (link p)])).
    + by rewrite insert_insert_eq.
    + rewrite lookup_insert_eq. by rewrite fmap_app.
    + eapply Forall2_impl; [done|]. intros r' p' [Hne' Hr']. simpl.
      split; [done|]. by rewrite lookup_insert_ne.
Qed.

Lemma strings_of_Str lines : strings_of (Str <$> lines) = mret lines.
Proof.
  induction lines as [|x lines IH]; [done|].
  cbn [fmap list_fmap strings_of]. by rewrite IH.
Qed.

(** On a store that holds the list [ps] at [papers], the events and the
    outcome of the call are those of the value model on [ps]. *)
Lemma store_refines w (h : heap) papers ps ri mp :
  holds_papers h papers ps ->
  fst (Store.filter_and_rank_papers w papers ri mp h)
  = rank_values w ps ri mp.
Proof.
  intros (l0 & ls & -> & Hl0 & Hrec).
  unfold Store.filter_and_rank_papers, rank_values.
  destruct (falsy _); [done|].
  set (key := default [] _).
  set (pl := fresh (dom h)).
  set (h1 := <[pl := OList []]> h).
  set (first := fresh (dom h1)).
  set (h2 := <[first := OList (slice_to 150 (Ref <$> ls))]> h1).
  assert (Hpl : h !! pl = None).
  { apply not_elem_of_dom, is_fresh. }
  assert (Hfirst : h1 !! first = None).
  { apply not_elem_of_dom, is_fresh. }
  assert (Hl0' : h1 !! l0 = Some (OList (Ref <$> ls))).
  { unfold h1. rewrite lookup_insert_ne; [done|]. intros <-. congruence. }
  assert (Hne : first <> pl).
  { intros E. rewrite E in Hfirst. unfold h1 in Hfirst.
    by rewrite lookup_insert_eq in Hfirst. }
  rewrite (hio_bind_ret _ _ h [GenaiConfigure key] tt h) by done.
  rewrite (hio_bind_ret _ _ h [GenaiModel (str "gemini-2.0-flash-exp")] tt h)
    by done.
  rewrite (hio_bind_ret _ _ h [] pl h1), after_nil by done.
  rewrite (hio_bind_ret _ _ h1 [] first h2), after_nil.
  2:{ unfold list_slice_to.
      rewrite (hio_bind_ret _ _ h1 [] (Ref <$> ls) h1), after_nil; [done|].
      unfold list_items. by rewrite Hl0'. }
  rewrite (hio_bind_ret _ _ h2 [] (Ref <$> take 150 ls) h2), after_nil.
  2:{ unfold list_items, h2. rewrite lookup_insert_eq.
      unfold slice_to. by rewrite fmap_take. }
  erewrite (hio_bind_ret _ _ h2 [] tt).
  2:{ apply (for_enumerate_listing h2 pl (take 150 ls) (take 150 ps) 1 []).
      - unfold h2, h1. rewrite lookup_insert_ne by done.
        by rewrite lookup_insert_eq.
      - apply Forall2_take. eapply Forall2_impl; [done|].
        intros r p Hr. simpl in *.
        assert (r <> pl) by (intros ->; congruence).
        assert (r <> first).
        { intros ->. unfold h1 in Hfirst.
          rewrite lookup_insert_ne in Hfirst by done. congruence. }
        split; [done|]. unfold h2, h1. by rewrite !lookup_insert_ne. }
  rewrite after_nil.
  set (lines := listing_loop 1 (take 150 ps) []).
  set (h3 := <[pl := OList (Str <$> lines)]> h2).
  rewrite (hio_bind_ret _ _ h3 [] (Str <$> lines) h3), after_nil.
  2:{ unfold list_items, h3. by rewrite lookup_insert_eq. }
  rewrite (hio_bind_ret _ _ h3 [] lines h3), after_nil.
  2:{ unfold lift. by rewrite strings_of_Str. }
  unfold slice_to. fold lines.
  set (prompt := build_prompt ri mp lines).
  unfold generate_content, lift, emit, after.
  unfold mbind, mret, hio_bind, hio_ret, io_bind, io_ret.
  by destruct (of_sum _).
Qed.

End StoreRefinement.

Lemma ranking_leaves_papers_unchanged_witness :
  Store.holds_papers sample_heap (Store.Ref 0) [sample_paper] /\
  Store.holds_papers
    (snd (Store.filter_and_rank_papers keyed_world (Store.Ref 0)
            (VStr (str "trade")) (VOther (str "10")) sample_heap))
    (Store.Ref 0) [sample_paper].
Proof.
  assert (H : Store.holds_papers sample_heap (Store.Ref 0) [sample_paper]).
  { exists 0, [1]. split; [done|]. split; [by vm_compute|].
    constructor; [by vm_compute | constructor]. }
  exact (conj H
    (proj1 (ranking_leaves_papers_unchanged keyed_world sample_heap
              (Store.Ref 0) [sample_paper] (VStr (str "trade"))
              (VOther (str "10")) H))).
Defined.

(** * Further instances *)

(** The call does change the store: the list of lines and the slice are
    new objects next to the two that were there. *)
Example ranking_allocates :
  size sample_heap = 2 /\
  size (snd (Store.filter_and_rank_papers keyed_world (Store.Ref 0)
               (VStr (str "trade")) (VOther (str "10")) sample_heap)) = 4 /\
  snd (fst (Store.filter_and_rank_papers keyed_world (Store.Ref 0)
              (VStr (str "trade")) (VOther (str "10")) sample_heap))
  = Return (str "### 1. T").
Proof. repeat apply conj; vm_compute; reflexivity. Qed.

(** Print mode with no [email] key: the success line is written, then the
    lookup of the recipient fails. *)
Example send_email_print_no_recipient :
  send_email quiet_world (str "<html>") ∅
  = ([Print (str "Email generation successful!")],
     Raise (KeyError (str "email"))).
Proof. vm_compute. reflexivity. Qed.

(** The gmail path with credentials: connection, login, send, quit, and
    the final line. *)
Example send_email_gmail_sends :
  fst (send_email
         {| environ := <[str "GMAIL_ADDRESS" := str "me@example.org"]>
                         {[ str "GMAIL_APP_PASSWORD" := str "pw" ]};
            feed_entries := fun _ => inr [];
            model_reply := fun _ => inr [];
            today := str "2025-01-06";
     today_long := str "January 06, 2025";
            smtp_connect := fun _ _ => None;
            smtp_login := fun _ _ => None;
            smtp_send := fun _ => None |}
         (str "<html>") gmail_config)
  = [SmtpConnect (str "smtp.gmail.com") 465;
     SmtpLogin (str "me@example.org") (str "pw");
     SmtpSend {| msg_subtype := str "alternative";
                 msg_subject := str "Research Digest - 2025-01-06";
                 msg_from := str "me@example.org";
                 msg_to := VStr (str "reader@example.org");
                 msg_parts := [(str "<html>", str "html")] |};
     SmtpQuit;
     Print (str "Email sent successfully to reader@example.org")].
Proof. vm_compute. reflexivity. Qed.

(** Inside further asterisks or brackets the same characters are part of
    a span with content. *)
Example five_stars :
  bold_pass (str "*****") = str "<strong>*</strong>".
Proof. vm_compute. reflexivity. Qed.

Example empty_form_before_link :
  link_pass (str "[]() [a](b)")
  = str "<a href=" ++ [QUOTE] ++ str "b" ++ [QUOTE] ++ str ">]() [a</a>".
Proof. vm_compute. reflexivity. Qed.

(** The Fetcher on two sources. *)
Example fetch_two_sources :
  snd (fetch_papers sample_world sample_feeds)
  = Return [ {| title := str "A1"; summary := []; link := [];
                source := str "A" |};
             {| title := str "A2"; summary := []; link := [];
                source := str "A" |};
             {| title := str "B1"; summary := []; link := [];
                source := str "B" |} ].
Proof. vm_compute. reflexivity. Qed.

(** One line of the listing. *)
Example listing_entry_example :
  listing_loop 1 [sample_paper] []
  = [str "1. **T** (Source: A)" ++ [NL] ++ str "   Abstract: S" ++ [NL]
     ++ str "   Link: L"].
Proof. vm_compute. reflexivity. Qed.

(** The document opens with the fixed head, whatever the digest. *)
Example generate_html_email_opening :
  take 31 (generate_html_email quiet_world (str "### T") ∅)
  = [NL] ++ str "    <html>" ++ [NL] ++ str "    <head>" ++ [NL]
    ++ str "        ".
Proof. vm_compute. reflexivity. Qed.

(** * More on the renderer *)

(** ** Matches stay inside the text *)

Lemma marks_le_mono n n' m : n <= n' -> marks_le n m -> marks_le n' m.
Proof.
  intros Hn H. eapply Forall_impl; [exact H|].
  intros [j v] Hv. simpl in *. lia.
Qed.

Lemma mark_get_le n m i : marks_le n m -> mark_get i m <= n.
Proof.
  induction 1 as [|[j v] m Hv _ IH]; simpl in *; [lia|].
  by destruct (i =? j).
Qed.

Lemma exec_bounds p s pos m n m' :
  marks_le pos m ->
  exec p s pos m = Some (n, m') ->
  pos <= n <= pos + length s /\ marks_le n m'.
Proof.
  revert s pos m. induction p as [|o p IH]; intros s pos m Hm H.
  - simpl in H. injection H as <- <-. split; [lia | done].
  - destruct o as [k|k|k|i].
    + destruct s as [|c s]; [done|]. rewrite exec_one in H.
      destruct (cls_match k c); [|done].
      apply IH in H as [? ?]; [|by apply (marks_le_mono pos); [lia|]].
      simpl. split; [lia | done].
    + destruct s as [|c s]; [done|]. rewrite exec_max in H.
      destruct (cls_match k c); [|done].
      apply max_until_sound in H as (a & b & -> & _ & H).
      apply IH in H as [? ?]; [|by apply (marks_le_mono pos); [lia|]].
      simpl. rewrite length_app. split; [lia | done].
    + destruct s as [|c s]; [done|]. rewrite exec_min in H.
      destruct (cls_match k c); [|done].
      apply min_until_sound in H as (a & b & -> & _ & H).
      apply IH in H as [? ?]; [|by apply (marks_le_mono pos); [lia|]].
      simpl. rewrite length_app. split; [lia | done].
    + rewrite exec_mark in H. apply IH in H; [done|].
      constructor; [simpl; lia | done].
Qed.

Lemma slice_app_le {A} (s t : list A) i j :
  j <= length s -> slice i j (s ++ t) = slice i j s.
Proof.
  intros Hj. unfold slice. destruct (decide (i <= length s)) as [Hi|Hi].
  - rewrite drop_app_le by done. apply take_app_le. rewrite length_drop. lia.
  - by replace (j - i) with 0 by lia.
Qed.

Lemma expand_app_le tpl m s t :
  marks_le (length s) m -> expand tpl m (s ++ t) = expand tpl m s.
Proof.
  intros Hm. unfold expand. f_equal. apply map_ext. intros [x|g]; [done|].
  simpl. unfold group. apply slice_app_le. by apply mark_get_le.
Qed.

(** ** Patterns that accept no newline work line by line *)

Section NewlineStop.
Context {R : Type} (k : cls) (cont1 cont2 : text -> nat -> option R).
Context (b : text).
Hypothesis Hk : cls_match k NL = false.
Hypothesis Hcont : forall y q, cont1 (y ++ NL :: b) q = cont2 y q.

Lemma max_until_newline x pos :
  max_until k cont1 (x ++ NL :: b) pos = max_until k cont2 x pos.
Proof.
  revert pos. induction x as [|c x IH]; intros pos; simpl.
  - rewrite Hk. apply (Hcont []).
  - rewrite IH. by rewrite (Hcont (c :: x)).
Qed.

Lemma min_until_newline x pos :
  min_until k cont1 (x ++ NL :: b) pos = min_until k cont2 x pos.
Proof.
  revert pos. induction x as [|c x IH]; intros pos; simpl.
  - rewrite Hk. by rewrite (Hcont []).
  - rewrite IH. by rewrite (Hcont (c :: x)).
Qed.

End NewlineStop.

(** A newline ends an attempt the way the end of the text does. *)
Lemma exec_newline p x b pos m :
  newline_free p ->
  exec p (x ++ NL :: b) pos m = exec p x pos m.
Proof.
  intros Hp. revert x pos m.
  induction Hp as [|o p Ho Hp IH]; intros x pos m; [done|].
  destruct o as [k|k|k|i].
  - destruct x as [|c x]; simpl; [by rewrite Ho|].
    destruct (cls_match k c); [apply IH | done].
  - destruct x as [|c x]; simpl; [by rewrite Ho|].
    destruct (cls_match k c); [|done].
    apply max_until_newline; [done|]. intros y q. apply IH.
  - destruct x as [|c x]; simpl; [by rewrite Ho|].
    destruct (cls_match k c); [|done].
    apply min_until_newline; [done|]. intros y q. apply IH.
  - simpl. apply IH.
Qed.

Lemma sub_from_lines p tpl a b k :
  newline_free p -> k <= length a ->
  sub_from p tpl (a ++ NL :: b) k
  = sub_from p tpl a k ++ NL :: sub_from p tpl b 0.
Proof.
  intros Hp. revert k. induction a as [|c a IH]; intros k Hk.
  - assert (k = 0) as -> by (simpl in Hk; lia).
    cbn [app sub_from]. rewrite (exec_newline p [] b) by done.
    destruct (exec p [] 0 []) as [[[|n] m]|] eqn:E; try done.
    apply exec_bounds in E as [? _]; [simpl in *; lia | constructor].
  - destruct k as [|k]; [|simpl in *; apply IH; lia].
    cbn [app sub_from]. rewrite (exec_newline p (c :: a) b) by done.
    destruct (exec p (c :: a) 0 []) as [[[|n] m]|] eqn:E;
      try (rewrite IH by lia; done).
    apply exec_bounds in E as [Hn Hm]; [|constructor].
    rewrite IH by (simpl in Hn; lia).
    change (c :: a ++ NL :: b) with ((c :: a) ++ NL :: b).
    rewrite (expand_app_le tpl m (c :: a) (NL :: b))
      by (apply (marks_le_mono (S n)); [simpl in *; lia | done]).
    by rewrite <- app_assoc.
Qed.

Lemma bold_re_newline_free : newline_free bold_re.
Proof. repeat constructor. Qed.

Lemma link_re_newline_free : newline_free link_re.
Proof. repeat constructor. Qed.

(** The bold pass and the link pass rewrite each line on its own: a span
    or a link never reaches across a newline, and what a pass does to a
    line does not depend on the lines around it. *)
Theorem bold_link_line_by_line (a b : text) :
  bold_pass (a ++ [NL] ++ b) = bold_pass a ++ [NL] ++ bold_pass b
  /\ link_pass (a ++ [NL] ++ b) = link_pass a ++ [NL] ++ link_pass b.
Proof.
  unfold bold_pass, link_pass, re_sub. split.
  - apply sub_from_lines; [apply bold_re_newline_free | lia].
  - apply sub_from_lines; [apply link_re_newline_free | lia].
Qed.

(** The heading pattern is not of that kind: its whitespace may run over
    line ends. *)
Example heading_over_lines :
  heading_pass (str "###" ++ [NL; NL] ++ str "Title") = str "<h3>Title</h3>".
Proof. vm_compute. reflexivity. Qed.

(** ** What the bold and the link pass write *)

Lemma bold_exec_span x rest :
  x <> [] -> matches ANY x -> STAR ∉ x ->
  exec bold_re ([STAR; STAR] ++ x ++ [STAR; STAR] ++ rest) 0 []
  = Some (S (3 + length x), [(1, 2 + length x); (0, 2)]).
Proof.
  intros Hx Hany Hstar. destruct x as [|c x]; [done|].
  apply Forall_cons in Hany as [Hc Hany].
  unfold bold_re. cbn [app]. rewrite !exec_lit, exec_mark, exec_min, Hc.
  apply min_until_first; [done|..].
  - intros a1 [|y a2] q -> Hne; [done|].
    rewrite exec_mark. cbn [app]. apply exec_first_literal.
    intros ->. apply Hstar. set_solver.
  - rewrite exec_mark, !exec_lit. cbn. reflexivity.
Qed.

(** A pair of double asterisks around text without asterisks and newlines
    becomes one strong element, and the pass goes on behind the closing
    pair: spans that follow each other on a line are not merged. *)
Theorem bold_pass_span (pre x rest : text) :
  STAR ∉ pre -> x <> [] -> matches ANY x -> STAR ∉ x ->
  bold_pass (pre ++ str "**" ++ x ++ str "**" ++ rest)
  = pre ++ str "<strong>" ++ x ++ str "</strong>" ++ bold_pass rest.
Proof.
  intros Hpre Hx Hany Hstar. unfold bold_pass, re_sub.
  change (str "**") with [STAR; STAR].
  unfold bold_re at 1. rewrite sub_from_copy_literal by done.
  fold bold_re. f_equal. cbn [app].
  erewrite sub_from_match by (apply (bold_exec_span x rest); done).
  unfold bold_tpl, expand. cbn [map concat expand_piece].
  rewrite app_nil_r, <- !app_assoc. f_equal. f_equal.
  - unfold group. cbn [Nat.sub Nat.mul Nat.add mark_get Nat.eqb].
    apply (slice_at [STAR; STAR] x ([STAR; STAR] ++ rest)); [done..|].
    simpl. lia.
  - f_equal.
    replace (3 + length x) with (length ([STAR] ++ x ++ [STAR; STAR]))
      by (rewrite !length_app; simpl; lia).
    rewrite <- sub_from_skip with (a := [STAR] ++ x ++ [STAR; STAR]).
    by rewrite <- !app_assoc.
Qed.

Lemma bold_pass_span_witness :
  (STAR ∉ str "see ") /\ str "a" <> [] /\ matches ANY (str "a") /\
  (STAR ∉ str "a") /\
  bold_pass (str "see " ++ str "**" ++ str "a" ++ str "**" ++ str "**b**")
  = str "see " ++ str "<strong>" ++ str "a" ++ str "</strong>"
    ++ bold_pass (str "**b**").
Proof.
  assert (H1 : STAR ∉ str "see ")
    by (apply (bool_decide_unpack _); vm_compute; exact I).
  assert (H2 : str "a" <> []) by (vm_compute; discriminate).
  assert (H3 : matches ANY (str "a")) by (vm_compute; repeat constructor).
  assert (H4 : STAR ∉ str "a")
    by (apply (bool_decide_unpack _); vm_compute; exact I).
  exact (conj H1 (conj H2 (conj H3 (conj H4
           (bold_pass_span (str "see ") (str "a") (str "**b**")
              H1 H2 H3 H4))))).
Defined.

Lemma link_exec_span label target rest :
  label <> [] -> matches ANY label -> RBRACKET ∉ label ->
  target <> [] -> matches ANY target -> RPAREN ∉ target ->
  exec link_re ([LBRACKET] ++ label ++ [RBRACKET; LPAREN] ++ target
                ++ [RPAREN] ++ rest) 0 []
  = Some (S (3 + length label + length target),
          [(3, 3 + length label + length target); (2, 3 + length label);
           (1, 1 + length label); (0, 1)]).
Proof.
  intros Hl Hlany Hlb Ht Htany Htp.
  destruct label as [|c label]; [done|]. destruct target as [|d target]; [done|].
  apply Forall_cons in Hlany as [Hc Hlany].
  apply Forall_cons in Htany as [Hd Htany].
  unfold link_re. cbn [app]. rewrite exec_lit, exec_mark, exec_min, Hc.
  apply min_until_first; [done|..].
  - intros a1 [|y a2] q -> Hne; [done|].
    rewrite exec_mark. cbn [app]. apply exec_first_literal.
    intros ->. apply Hlb. set_solver.
  - rewrite exec_mark. cbn [app]. rewrite !exec_lit, exec_mark, exec_min, Hd.
    apply min_until_first; [done|..].
    + intros a1 [|y a2] q -> Hne; [done|].
      rewrite exec_mark. cbn [app]. apply exec_first_literal.
      intros ->. apply Htp. set_solver.
    + rewrite exec_mark. cbn [app]. rewrite exec_lit. cbn.
      do 3 f_equal; [lia|]. repeat (f_equal; try lia).
Qed.

(** A link form whose label holds no closing bracket and whose target
    holds no closing parenthesis, both without newlines, becomes one
    anchor with the target as [href] and the label as its text, and the
    pass goes on behind the closing parenthesis. *)
Theorem link_pass_span (pre label target rest : text) :
  LBRACKET ∉ pre ->
  label <> [] -> matches ANY label -> RBRACKET ∉ label ->
  target <> [] -> matches ANY target -> RPAREN ∉ target ->
  link_pass (pre ++ str "[" ++ label ++ str "](" ++ target ++ str ")" ++ rest)
  = pre ++ str "<a href=" ++ [QUOTE] ++ target ++ [QUOTE] ++ str ">"
    ++ label ++ str "</a>" ++ link_pass rest.
Proof.
  intros Hpre Hl Hlany Hlb Ht Htany Htp. unfold link_pass, re_sub.
  change (str "[") with [LBRACKET].
  change (str "](") with [RBRACKET; LPAREN].
  change (str ")") with [RPAREN].
  unfold link_re at 1. rewrite sub_from_copy_literal by done.
  fold link_re. f_equal. cbn [app].
  erewrite sub_from_match
    by (apply (link_exec_span label target rest); done).
  unfold link_tpl, expand. cbn [map concat expand_piece].
  rewrite app_nil_r, <- !app_assoc. f_equal.
  unfold group. cbn [Nat.sub Nat.mul Nat.add mark_get Nat.eqb].
  rewrite (slice_at ([LBRACKET] ++ label ++ [RBRACKET; LPAREN]) target
             ([RPAREN] ++ rest));
    [| by rewrite <- !app_assoc | rewrite !length_app; simpl; lia | lia].
  rewrite (slice_at [LBRACKET] label
             ([RBRACKET; LPAREN] ++ target ++ [RPAREN] ++ rest));
    [| done | done | simpl; lia].
  assert (E : sub_from link_re link_tpl
                (label ++ RBRACKET :: LPAREN :: target ++ RPAREN :: rest)
                (3 + length label + length target)
              = sub_from link_re link_tpl rest 0).
  { rewrite <- (sub_from_skip link_re link_tpl
                  (label ++ [RBRACKET; LPAREN] ++ target ++ [RPAREN]) rest).
    rewrite <- !app_assoc. cbn [app]. f_equal.
    rewrite length_app. cbn [length]. rewrite length_app. simpl. lia. }
  do 6 f_equal. exact E.
Qed.

Lemma link_pass_span_witness :
  (LBRACKET ∉ str "see ") /\
  str "text" <> [] /\ matches ANY (str "text") /\ (RBRACKET ∉ str "text") /\
  str "http://x" <> [] /\ matches ANY (str "http://x") /\
  (RPAREN ∉ str "http://x") /\
  link_pass (str "see " ++ str "[" ++ str "text" ++ str "]("
             ++ str "http://x" ++ str ")" ++ str ".")
  = str "see " ++ str "<a href=" ++ [QUOTE] ++ str "http://x" ++ [QUOTE]
    ++ str ">" ++ str "text" ++ str "</a>" ++ link_pass (str ".").
Proof.
  assert (H1 : LBRACKET ∉ str "see ")
    by (apply (bool_decide_unpack _); vm_compute; exact I).
  assert (H2 : str "text" <> []) by (vm_compute; discriminate).
  assert (H3 : matches ANY (str "text")) by (vm_compute; repeat constructor).
  assert (H4 : RBRACKET ∉ str "text")
    by (apply (bool_decide_unpack _); vm_compute; exact I).
  assert (H5 : str "http://x" <> []) by (vm_compute; discriminate).
  assert (H6 : matches ANY (str "http://x"))
    by (vm_compute; repeat constructor).
  assert (H7 : RPAREN ∉ str "http://x")
    by (apply (bool_decide_unpack _); vm_compute; exact I).
  exact (conj H1 (conj H2 (conj H3 (conj H4 (conj H5 (conj H6 (conj H7
           (link_pass_span (str "see ") (str "text") (str "http://x")
              (str ".") H1 H2 H3 H4 H5 H6 H7)))))))).
Defined.

(** ** What a heading match captures *)

Section Greedy.
Context {R : Type} (k : cls) (cont : text -> nat -> option R).
Hypothesis Htotal : forall t q, cont t q <> None.

Lemma max_until_total s pos : max_until k cont s pos <> None.
Proof.
  revert pos. induction s as [|c s IH]; intros pos; simpl; [done|].
  destruct (cls_match k c); [|done].
  specialize (IH (S pos)). by destruct (max_until k cont s (S pos)).
Qed.

(** With a rest of the pattern that always matches, the greedy
    repetition keeps the whole run. *)
Lemma max_until_greedy s pos r :
  max_until k cont s pos = Some r ->
  exists a b, s = a ++ b /\ matches k a /\ stops k b /\
              cont b (pos + length a) = Some r.
Proof.
  revert pos; induction s as [|c s IH]; intros pos H; simpl in H.
  - exists [], []. rewrite Nat.add_0_r. repeat split; [constructor | done].
  - destruct (cls_match k c) eqn:Hc.
    + pose proof (max_until_total s (S pos)) as Ht.
      destruct (max_until k cont s (S pos)) as [r'|] eqn:Hm; [|done].
      injection H as ->. destruct (IH _ Hm) as (a & b & -> & Ha & Hb & Hk).
      exists (c :: a), b. repeat split; [by constructor | done |].
      simpl. by rewrite Nat.add_succ_r.
    + exists [], (c :: s). rewrite Nat.add_0_r.
      repeat split; [constructor | done..].
Qed.

End Greedy.

Lemma exec_max_inv k p s pos m r :
  exec (MAX_REPEAT1 k :: p) s pos m = Some r ->
  exists c a b, s = (c :: a) ++ b /\ cls_match k c = true /\ matches k a /\
                exec p b (S pos + length a) m = Some r.
Proof.
  destruct s as [|c s]; [done|]. rewrite exec_max.
  destruct (cls_match k c) eqn:Hc; [|done]. intros H.
  apply max_until_sound in H as (a & b & -> & Ha & Hb). by exists c, a, b.
Qed.

(** Whatever a heading match spans, the text it captures is not empty,
    holds no newline and runs to the end of its line (or of the text); the
    marker is three [#] followed by whitespace. *)
Theorem heading_capture (s : text) (n : nat) (m : marks) :
  exec heading_re s 0 [] = Some (n, m) ->
  exists ws t rest,
    s = str "###" ++ ws ++ t ++ rest /\
    ws <> [] /\ matches CATEGORY_SPACE ws /\
    t <> [] /\ matches ANY t /\ stops ANY rest /\
    n = 3 + length ws + length t /\ group 1 m s = t.
Proof.
  unfold heading_re. intros H.
  apply exec_lit_inv in H as (s1 & -> & H).
  apply exec_lit_inv in H as (s2 & -> & H).
  apply exec_lit_inv in H as (s3 & -> & H).
  apply exec_max_inv in H as (w & ws & s4 & -> & Hw & Hws & H).
  rewrite exec_mark in H.
  destruct s4 as [|c s4]; [done|]. rewrite exec_max in H.
  destruct (cls_match ANY c) eqn:Hc; [|done].
  apply max_until_greedy in H as (t & rest & -> & Ht & Hrest & H);
    [|by intros].
  rewrite exec_mark in H. simpl in H. injection H as <- <-.
  exists (w :: ws), (c :: t), rest.
  change (str "###") with [HASH; HASH; HASH].
  repeat split; try done.
  - by constructor.
  - by constructor.
  - simpl. lia.
  - unfold group. cbn [Nat.sub Nat.mul Nat.add mark_get Nat.eqb].
    apply (slice_at ([HASH; HASH; HASH] ++ w :: ws) (c :: t) rest).
    + by rewrite <- app_assoc.
    + rewrite length_app. simpl. lia.
    + simpl. lia.
Qed.

Lemma heading_capture_witness :
  exec heading_re (str "### T" ++ [NL] ++ str "x") 0 []
  = Some (5, [(1, 5); (0, 4)]) /\
  exists ws t rest,
    str "### T" ++ [NL] ++ str "x" = str "###" ++ ws ++ t ++ rest /\
    ws <> [] /\ matches CATEGORY_SPACE ws /\
    t <> [] /\ matches ANY t /\ stops ANY rest /\
    5 = 3 + length ws + length t /\
    group 1 [(1, 5); (0, 4)] (str "### T" ++ [NL] ++ str "x") = t.
Proof.
  assert (H : exec heading_re (str "### T" ++ [NL] ++ str "x") 0 []
              = Some (5, [(1, 5); (0, 4)])) by (vm_compute; reflexivity).
  exact (conj H (heading_capture _ _ _ H)).
Defined.

(** ** The line-break pass *)

Lemma is_prefix_two c t :
  is_prefix [NL; NL] (c :: t) = (NL =? c)%N && is_prefix [NL] t.
Proof. simpl. by destruct t. Qed.

Lemma is_prefix_one c t : is_prefix [NL] (c :: t) = (NL =? c)%N.
Proof. cbn [is_prefix]. apply andb_true_r. Qed.

Lemma count_sub_cons_other c t :
  c <> NL -> count_sub [NL; NL] (c :: t) = count_sub [NL; NL] t.
Proof.
  intros Hc. cbn [count_sub]. rewrite is_prefix_two.
  by destruct (N.eqb_spec NL c).
Qed.

Lemma break_pass_double s :
  break_pass (NL :: NL :: s) = str "<br><br>" ++ break_pass s.
Proof. reflexivity. Qed.

Lemma break_pass_single c s :
  is_prefix [NL; NL] (c :: s) = false ->
  break_pass (c :: s) = c :: break_pass s.
Proof. intros H. unfold break_pass, replace. simpl in *. by rewrite H. Qed.

Lemma break_pass_clean_upto n s :
  length s <= n ->
  count_sub [NL; NL] (break_pass s) = 0
  /\ (is_prefix [NL] (break_pass s) = true -> is_prefix [NL] s = true).
Proof.
  revert s. induction n as [|n IH]; intros s Hn.
  - destruct s; [done | simpl in Hn; lia].
  - destruct s as [|c s]; [done|].
    destruct (is_prefix [NL; NL] (c :: s)) eqn:E.
    + rewrite is_prefix_two in E. apply andb_prop in E as [Ec Es].
      apply N.eqb_eq in Ec as <-.
      destruct s as [|d s]; [done|]. rewrite is_prefix_one in Es.
      apply N.eqb_eq in Es as <-.
      rewrite break_pass_double.
      destruct (IH s) as [IH1 _]; [simpl in Hn; lia|].
      split; [|done]. vm_compute (str "<br><br>"). cbn [app].
      rewrite !(count_sub_cons_other); done.
    + rewrite (break_pass_single _ _ E).
      destruct (IH s) as [IH1 IH2]; [simpl in Hn; lia|].
      rewrite is_prefix_two in E. split.
      * cbn [count_sub]. rewrite IH1, is_prefix_two.
        destruct (NL =? c)%N; [|done]. rewrite andb_true_l in E.
        destruct (is_prefix [NL] (break_pass s)); [|done].
        by rewrite IH2 in E.
      * by rewrite !is_prefix_one.
Qed.

(** After the line-break pass no double newline is left, in the output of
    the pass as in the output of the four passes, and a second run of the
    pass changes nothing. *)
Theorem break_pass_clean (s : text) :
  count_sub [NL; NL] (break_pass s) = 0
  /\ count_sub [NL; NL] (substitution_passes s) = 0
  /\ break_pass (break_pass s) = break_pass s.
Proof.
  assert (H : forall t, count_sub [NL; NL] (break_pass t) = 0).
  { intros t. by apply (break_pass_clean_upto (length t)). }
  repeat split; [apply H | apply H |].
  unfold break_pass at 1. apply replace_absent, H.
Qed.

(** * More on Delivery *)

Lemma send_email_gmail_unfold w html_content config sender password :
  gmail_ready w config sender password ->
  send_email w html_content config
  = (recipient ← getitem config (str "email");
     try_except
       (with_SMTP_SSL w GMAIL_HOST GMAIL_PORT
          (server_login w sender password;;
           server_send_message w
             (digest_message w html_content sender recipient));;
        recipient ← getitem config (str "email");
        print (str "Email sent successfully to " ++ format recipient))
       (fun e =>
          print (str "Failed to send email: " ++ exn_text e);;
          raise e)).
Proof.
  intros (Hm & Hs & Hs' & Hp & Hp'). unfold send_email.
  rewrite Hm, Hs, Hp. cbn [default].
  rewrite decide_False by (intros [=]). rewrite decide_True by done.
  destruct sender; [done|]. destruct password; [done|]. reflexivity.
Qed.

(** In gmail mode with both credentials and a recipient, when the relay
    accepts every step, the call opens one connection, logs in, sends the
    one message built from the document, quits, and prints the final
    line. *)
Theorem send_email_gmail_success (w : world) (html_content : text)
  (config : gmap text value) (sender password : text) (recipient : value) :
  gmail_ready w config sender password ->
  config !! str "email" = Some recipient ->
  smtp_connect w GMAIL_HOST GMAIL_PORT = None ->
  smtp_login w sender password = None ->
  smtp_send w (digest_message w html_content sender recipient) = None ->
  send_email w html_content config
  = ([SmtpConnect GMAIL_HOST GMAIL_PORT;
      SmtpLogin sender password;
      SmtpSend (digest_message w html_content sender recipient);
      SmtpQuit;
      Print (str "Email sent successfully to " ++ format recipient)],
     Return tt).
Proof.
  intros Hr He Hc Hl Hs. rewrite (send_email_gmail_unfold _ _ _ _ _ Hr).
  unfold getitem, with_SMTP_SSL, server_login, server_send_message.
  rewrite He. cbv beta iota delta [mbind io_bind mret io_ret].
  rewrite Hc, Hl, Hs. reflexivity.
Qed.

(** When the relay refuses a step, the steps after it are not taken (no
    login after a failed connection, no message after a failed login), an
    open connection is quit, the diagnostic line with the text of the
    exception is printed and the same exception is raised again. *)
Theorem send_email_gmail_failure (w : world) (html_content : text)
  (config : gmap text value) (sender password : text) (recipient : value)
  (e : exn) :
  gmail_ready w config sender password ->
  config !! str "email" = Some recipient ->
  (smtp_connect w GMAIL_HOST GMAIL_PORT = Some e ->
   send_email w html_content config
   = ([SmtpConnect GMAIL_HOST GMAIL_PORT;
       Print (str "Failed to send email: " ++ exn_text e)], Raise e))
  /\ (smtp_connect w GMAIL_HOST GMAIL_PORT = None ->
      smtp_login w sender password = Some e ->
      send_email w html_content config
      = ([SmtpConnect GMAIL_HOST GMAIL_PORT; SmtpLogin sender password;
          SmtpQuit;
          Print (str "Failed to send email: " ++ exn_text e)], Raise e))
  /\ (smtp_connect w GMAIL_HOST GMAIL_PORT = None ->
      smtp_login w sender password = None ->
      smtp_send w (digest_message w html_content sender recipient) = Some e ->
      send_email w html_content config
      = ([SmtpConnect GMAIL_HOST GMAIL_PORT; SmtpLogin sender password;
          SmtpSend (digest_message w html_content sender recipient);
          SmtpQuit;
          Print (str "Failed to send email: " ++ exn_text e)], Raise e)).
Proof.
  intros Hr He. rewrite (send_email_gmail_unfold _ _ _ _ _ Hr).
  unfold getitem, with_SMTP_SSL, server_login, server_send_message.
  rewrite He. cbv beta iota delta [mbind io_bind mret io_ret].
  repeat split.
  - intros Hc. rewrite Hc. reflexivity.
  - intros Hc Hl. rewrite Hc, Hl. reflexivity.
  - intros Hc Hl Hs. rewrite Hc, Hl, Hs. reflexivity.
Qed.

(** In gmail mode with both credentials but no [email] key the call
    raises [KeyError] while it builds the message: nothing is printed and
    no connection is opened. *)
Theorem send_email_gmail_no_recipient (w : world) (html_content : text)
  (config : gmap text value) (sender password : text) :
  gmail_ready w config sender password ->
  config !! str "email" = None ->
  send_email w html_content config = ([], Raise (KeyError (str "email"))).
Proof.
  intros Hr He. rewrite (send_email_gmail_unfold _ _ _ _ _ Hr).
  unfold getitem. rewrite He. reflexivity.
Qed.

(** A credential that is set to the empty string counts as missing. *)
Theorem send_email_gmail_empty_credential (w : world) (html_content : text)
  (config : gmap text value) :
  config !! str "email_method" = Some (VStr (str "gmail")) ->
  environ w !! str "GMAIL_ADDRESS" = Some [] \/
  environ w !! str "GMAIL_APP_PASSWORD" = Some [] ->
  send_email w html_content config
  = ([], Raise (ValueError (str "Gmail credentials not found. Set GMAIL_ADDRESS and GMAIL_APP_PASSWORD in secrets."))).
Proof.
  intros Hm Henv. unfold send_email. rewrite Hm. cbn [default].
  rewrite decide_False by (intros [=]).
  rewrite decide_True by done.
  destruct Henv as [-> | ->]; cbn [falsy orb]; [done|].
  by rewrite orb_true_r.
Qed.

(** In print mode without an [email] key the success line is written and
    then the lookup of the recipient raises [KeyError]; the preview is not
    printed. *)
Theorem send_email_print_missing_email (w : world) (html_content : text)
  (config : gmap text value) :
  config !! str "email_method" = None \/
  config !! str "email_method" = Some (VStr (str "print")) ->
  config !! str "email" = None ->
  send_email w html_content config
  = ([Print (str "Email generation successful!")],
     Raise (KeyError (str "email"))).
Proof.
  intros Hm He. unfold send_email. rewrite (email_method_print _ Hm).
  rewrite decide_True by done. unfold getitem. rewrite He. reflexivity.
Qed.

Lemma send_email_offline_events (w : world) (html_content : text)
  (config : gmap text value) :
  config !! str "email_method" <> Some (VStr (str "gmail")) ->
  Forall (fun e => is_network e = false)
    (fst (send_email w html_content config)).
Proof.
  intros Hm. unfold send_email.
  destruct (decide (default (VStr (str "print"))
                      (config !! str "email_method") = VStr (str "print")))
    as [E|E].
  - unfold getitem. destruct (config !! str "email"); by repeat constructor.
  - rewrite decide_False; [by constructor|].
    destruct (config !! str "email_method") as [v|] eqn:Ev; [|done].
    simpl. intros ->. done.
Qed.

(** Only the gmail mode reaches the network: with any other value of
    [email_method], or none, no event of the call is a network call,
    whether the call returns or raises. *)
Theorem send_email_offline (w : world) (html_content : text)
  (config : gmap text value) :
  config !! str "email_method" <> Some (VStr (str "gmail")) ->
  Forall (fun e => is_network e = false)
    (fst (send_email w html_content config)).
Proof. apply send_email_offline_events. Qed.

Lemma gmail_ready_sample c l s :
  gmail_ready (gmail_world c l s) gmail_config (str "me@example.org")
    (str "pw").
Proof.
  repeat apply conj; try (vm_compute; reflexivity); vm_compute; discriminate.
Qed.

Lemma send_email_gmail_success_witness :
  gmail_ready (gmail_world None None None) gmail_config
    (str "me@example.org") (str "pw") /\
  send_email (gmail_world None None None) (str "<html>") gmail_config
  = ([SmtpConnect GMAIL_HOST GMAIL_PORT;
      SmtpLogin (str "me@example.org") (str "pw");
      SmtpSend (digest_message (gmail_world None None None) (str "<html>")
                  (str "me@example.org") (VStr (str "reader@example.org")));
      SmtpQuit;
      Print (str "Email sent successfully to "
             ++ format (VStr (str "reader@example.org")))],
     Return tt).
Proof.
  exact (conj (gmail_ready_sample None None None)
    (send_email_gmail_success (gmail_world None None None) (str "<html>")
       gmail_config (str "me@example.org") (str "pw")
       (VStr (str "reader@example.org"))
       (gmail_ready_sample None None None)
       ltac:(vm_compute; reflexivity) eq_refl eq_refl eq_refl)).
Defined.

Lemma send_email_gmail_failure_witness :
  gmail_ready (gmail_world None (Some (LibraryError (str "refused"))) None)
    gmail_config (str "me@example.org") (str "pw") /\
  send_email (gmail_world None (Some (LibraryError (str "refused"))) None)
    (str "<html>") gmail_config
  = ([SmtpConnect GMAIL_HOST GMAIL_PORT;
      SmtpLogin (str "me@example.org") (str "pw");
      SmtpQuit;
      Print (str "Failed to send email: "
             ++ exn_text (LibraryError (str "refused")))],
     Raise (LibraryError (str "refused"))).
Proof.
  exact (conj (gmail_ready_sample _ _ _)
    (proj1 (proj2
       (send_email_gmail_failure
          (gmail_world None (Some (LibraryError (str "refused"))) None)
          (str "<html>") gmail_config (str "me@example.org") (str "pw")
          (VStr (str "reader@example.org")) (LibraryError (str "refused"))
          (gmail_ready_sample _ _ _) ltac:(vm_compute; reflexivity)))
       eq_refl eq_refl)).
Defined.

Lemma send_email_gmail_no_recipient_witness :
  gmail_ready (gmail_world None None None)
    {[ str "email_method" := VStr (str "gmail") ]}
    (str "me@example.org") (str "pw") /\
  send_email (gmail_world None None None) (str "<html>")
    {[ str "email_method" := VStr (str "gmail") ]}
  = ([], Raise (KeyError (str "email"))).
Proof.
  assert (H : gmail_ready (gmail_world None None None)
                {[ str "email_method" := VStr (str "gmail") ]}
                (str "me@example.org") (str "pw")).
  { repeat apply conj; try (vm_compute; reflexivity);
      vm_compute; discriminate. }
  exact (conj H
    (send_email_gmail_no_recipient (gmail_world None None None) (str "<html>")
       _ _ _ H ltac:(vm_compute; reflexivity))).
Defined.

Lemma send_email_gmail_empty_credential_witness :
  gmail_config !! str "email_method" = Some (VStr (str "gmail")) /\
  (environ blank_sender_world !! str "GMAIL_ADDRESS" = Some [] \/
   environ blank_sender_world !! str "GMAIL_APP_PASSWORD" = Some []) /\
  send_email blank_sender_world (str "<html>") gmail_config
  = ([], Raise (ValueError (str "Gmail credentials not found. Set GMAIL_ADDRESS and GMAIL_APP_PASSWORD in secrets."))).
Proof.
  assert (H : gmail_config !! str "email_method" = Some (VStr (str "gmail")))
    by (vm_compute; reflexivity).
  assert (H2 : environ blank_sender_world !! str "GMAIL_ADDRESS" = Some [] \/
               environ blank_sender_world !! str "GMAIL_APP_PASSWORD" = Some [])
    by (left; vm_compute; reflexivity).
  exact (conj H (conj H2
    (send_email_gmail_empty_credential blank_sender_world (str "<html>")
       gmail_config H H2))).
Defined.

Lemma send_email_print_missing_email_witness :
  (∅ : gmap text value) !! str "email" = None /\
  send_email quiet_world (str "<html>") ∅
  = ([Print (str "Email generation successful!")],
     Raise (KeyError (str "email"))).
Proof.
  exact (conj eq_refl
    (send_email_print_missing_email quiet_world (str "<html>") ∅
       (or_introl eq_refl) eq_refl)).
Defined.

Lemma send_email_offline_witness :
  smtp_config !! str "email_method" <> Some (VStr (str "gmail")) /\
  Forall (fun e => is_network e = false)
    (fst (send_email quiet_world (str "<html>") smtp_config)).
Proof.
  assert (H : smtp_config !! str "email_method"
              <> Some (VStr (str "gmail")))
    by distinct_chars.
  exact (conj H (send_email_offline quiet_world (str "<html>") smtp_config H)).
Defined.

(** * More on the Feed Fetcher *)

Lemma fetch_loop_aborts (w : world) (pre post : list feed_source)
  (f : feed_source) (e : exn) :
  Forall (feed_ok w) pre -> feed_fails w f e ->
  fetch_papers w (pre ++ f :: post)
  = (fetch_trace pre
     ++ [Print (str "Fetching from " ++ name f ++ str "...");
         FeedParse (url f)],
     Raise e).
Proof.
  intros Hpre Hf. unfold fetch_papers. generalize (@nil paper).
  induction Hpre as [|g pre Hg Hpre IH]; intros acc.
  - cbn [app fetch_loop]. unfold feedparser_parse. rewrite Hf. reflexivity.
  - cbn [app fetch_loop]. unfold feedparser_parse. rewrite Hg.
    unfold mbind, io_bind, print, emit. cbn [of_sum].
    by rewrite IH.
Qed.

(** The first source that cannot be retrieved ends the call with its
    exception: the records of the sources before it are lost and the
    sources after it are not retrieved. *)
Theorem fetch_papers_aborts (w : world) (pre post : list feed_source)
  (f : feed_source) (e : exn) :
  Forall (feed_ok w) pre -> feed_fails w f e ->
  fetch_papers w (pre ++ f :: post)
  = (fetch_trace pre
     ++ [Print (str "Fetching from " ++ name f ++ str "...");
         FeedParse (url f)],
     Raise e).
Proof. apply fetch_loop_aborts. Qed.

Lemma fetch_papers_aborts_witness :
  Forall (feed_ok broken_feed_world)
    [ {| name := str "A"; url := str "http://a" |} ] /\
  feed_fails broken_feed_world {| name := str "B"; url := str "http://b" |}
    (LibraryError (str "timeout")) /\
  fetch_papers broken_feed_world
    ([ {| name := str "A"; url := str "http://a" |} ]
     ++ {| name := str "B"; url := str "http://b" |}
     :: [ {| name := str "C"; url := str "http://c" |} ])
  = (fetch_trace [ {| name := str "A"; url := str "http://a" |} ]
     ++ [Print (str "Fetching from "
                ++ name {| name := str "B"; url := str "http://b" |}
                ++ str "...");
         FeedParse (url {| name := str "B"; url := str "http://b" |})],
     Raise (LibraryError (str "timeout"))).
Proof.
  assert (H1 : Forall (feed_ok broken_feed_world)
                 [ {| name := str "A"; url := str "http://a" |} ])
    by (repeat constructor).
  assert (H2 : feed_fails broken_feed_world
                 {| name := str "B"; url := str "http://b" |}
                 (LibraryError (str "timeout"))) by reflexivity.
  exact (conj H1 (conj H2
    (fetch_papers_aborts broken_feed_world _ _ _ _ H1 H2))).
Defined.

(** A call either retrieves every source or stops at the first that
    fails. *)
Lemma fetch_papers_cases w feeds :
  Forall (feed_ok w) feeds
  \/ exists pre f post e,
       feeds = pre ++ f :: post /\ Forall (feed_ok w) pre /\ feed_fails w f e.
Proof.
  induction feeds as [|f feeds IH]; [by left|].
  destruct (feed_entries w (url f)) as [e|es] eqn:E.
  - right. exists [], f, feeds, e. by repeat split.
  - assert (Hf : feed_ok w f).
    { unfold feed_ok, entries_available. by rewrite E. }
    destruct IH as [IH|(pre & g & post & e & -> & Hpre & Hg)].
    + left. by constructor.
    + right. exists (f :: pre), g, post, e. repeat split; [|done].
      by constructor.
Qed.

(** Each record that the Fetcher returns comes from an entry of one of the
    sources: it carries the name of that source, and its title, summary and
    link are those of the entry, or the empty string where the entry has
    none. *)
Theorem fetch_papers_records (w : world) (feeds : list feed_source)
  (t : list event) (papers : list paper) (p : paper) :
  fetch_papers w feeds = (t, Return papers) -> p ∈ papers ->
  exists f e,
    f ∈ feeds /\ e ∈ take 50 (entries_available w f) /\
    source p = name f /\
    title p = default [] (e !! str "title") /\
    summary p = default [] (e !! str "summary") /\
    link p = default [] (e !! str "link").
Proof.
  intros H Hp.
  destruct (fetch_papers_cases w feeds)
    as [Hok|(pre & f & post & e & -> & Hpre & Hf)].
  - unfold fetch_papers in H. rewrite fetch_loop_spec in H by done.
    injection H as _ <-. cbn [app] in Hp. unfold in_source_order in Hp.
    apply list_elem_of_In, in_concat in Hp as (l & Hl & Hp).
    apply in_map_iff in Hl as (f & <- & Hf).
    apply in_map_iff in Hp as (e & <- & He).
    exists f, e. by rewrite <- !list_elem_of_In in *.
  - by rewrite (fetch_loop_aborts w pre post f e) in H.
Qed.

Lemma fetch_papers_records_witness :
  fetch_papers sample_world sample_feeds
  = (fetch_trace sample_feeds, Return (in_source_order sample_world sample_feeds))
  /\ exists f e,
    f ∈ sample_feeds /\ e ∈ take 50 (entries_available sample_world f) /\
    source (paper_of {| name := str "B"; url := str "http://b" |}
              (sample_entry "B1")) = name f /\
    title (paper_of {| name := str "B"; url := str "http://b" |}
             (sample_entry "B1")) = default [] (e !! str "title") /\
    summary (paper_of {| name := str "B"; url := str "http://b" |}
               (sample_entry "B1")) = default [] (e !! str "summary") /\
    link (paper_of {| name := str "B"; url := str "http://b" |}
            (sample_entry "B1")) = default [] (e !! str "link").
Proof.
  assert (H : fetch_papers sample_world sample_feeds
              = (fetch_trace sample_feeds,
                 Return (in_source_order sample_world sample_feeds)))
    by (vm_compute; reflexivity).
  assert (Hp : paper_of {| name := str "B"; url := str "http://b" |}
                 (sample_entry "B1")
               ∈ in_source_order sample_world sample_feeds).
  { apply list_elem_of_In. vm_compute. right. right. by left. }
  exact (conj H (fetch_papers_records _ _ _ _ _ H Hp)).
Defined.

(** A run that returns gave at most 50 records per source. *)
Theorem fetch_papers_at_most_50_each (w : world) (feeds : list feed_source)
  (t : list event) (papers : list paper) :
  fetch_papers w feeds = (t, Return papers) ->
  length papers <= 50 * length feeds.
Proof.
  intros H.
  destruct (fetch_papers_cases w feeds)
    as [Hok|(pre & f & post & e & -> & Hpre & Hf)].
  - unfold fetch_papers in H. rewrite fetch_loop_spec in H by done.
    injection H as _ <-. cbn [app]. rewrite in_source_order_length.
    clear. induction feeds as [|f feeds IH];
      cbn [sum_list_with length]; lia.
  - by rewrite (fetch_loop_aborts w pre post f e) in H.
Qed.

Lemma fetch_papers_at_most_50_each_witness :
  fetch_papers sample_world sample_feeds
  = (fetch_trace sample_feeds, Return (in_source_order sample_world sample_feeds))
  /\ length (in_source_order sample_world sample_feeds)
     <= 50 * length sample_feeds.
Proof.
  assert (H : fetch_papers sample_world sample_feeds
              = (fetch_trace sample_feeds,
                 Return (in_source_order sample_world sample_feeds)))
    by (vm_compute; reflexivity).
  exact (conj H (fetch_papers_at_most_50_each _ _ _ _ H)).
Defined.

(** * More on the Ranking Client *)

(** A key that is set to the empty string counts as missing: the call
    raises before any event. *)
Theorem ranking_empty_key (w : world) (papers : list paper)
  (research_interests max_papers : value) :
  environ w !! str "GEMINI_API_KEY" = Some [] ->
  filter_and_rank_papers w papers research_interests max_papers
  = ([], Raise (ValueError (str "GEMINI_API_KEY not found in environment variables"))).
Proof. intros H. unfold filter_and_rank_papers. by rewrite H. Qed.

Lemma ranking_empty_key_witness :
  environ blank_key_world !! str "GEMINI_API_KEY" = Some [] /\
  filter_and_rank_papers blank_key_world [sample_paper] (VStr (str "trade"))
    (VOther (str "10"))
  = ([], Raise (ValueError (str "GEMINI_API_KEY not found in environment variables"))).
Proof.
  assert (H : environ blank_key_world !! str "GEMINI_API_KEY" = Some [])
    by (vm_compute; reflexivity).
  exact (conj H (ranking_empty_key blank_key_world [sample_paper]
                   (VStr (str "trade")) (VOther (str "10")) H)).
Defined.

(** With a key the model is called once, and the call ends as the model
    call ends: it returns the text of the reply as it is, or raises the
    exception of the model call. *)
Theorem ranking_returns_reply (w : world) (papers : list paper)
  (research_interests max_papers : value) (key : text) :
  environ w !! str "GEMINI_API_KEY" = Some key -> key <> [] ->
  exists prompt,
    filter (fun e => bool_decide (is_network e = true))
      (fst (filter_and_rank_papers w papers research_interests max_papers))
    = [GenerateContent prompt]
    /\ (forall reply, model_reply w prompt = inr reply ->
          snd (filter_and_rank_papers w papers research_interests max_papers)
          = Return reply)
    /\ (forall e, model_reply w prompt = inl e ->
          snd (filter_and_rank_papers w papers research_interests max_papers)
          = Raise e).
Proof.
  intros H Hk. eexists. rewrite (ranking_with_key _ _ _ _ key H Hk).
  split; [reflexivity|]. cbn [snd]. split; intros r ->; reflexivity.
Qed.

Lemma ranking_returns_reply_witness :
  environ keyed_world !! str "GEMINI_API_KEY" = Some (str "k") /\
  str "k" <> [] /\
  snd (filter_and_rank_papers keyed_world [sample_paper] (VStr (str "trade"))
         (VOther (str "10")))
  = Return (str "### 1. T").
Proof.
  assert (H : environ keyed_world !! str "GEMINI_API_KEY" = Some (str "k"))
    by (vm_compute; reflexivity).
  assert (Hk : str "k" <> []) by (vm_compute; discriminate).
  destruct (ranking_returns_reply keyed_world [sample_paper]
              (VStr (str "trade")) (VOther (str "10")) (str "k") H Hk)
    as (prompt & _ & Hr & _).
  exact (conj H (conj Hk (Hr (str "### 1. T") eq_refl))).
Defined.

Lemma listing_loop_clip i ps acc :
  listing_loop i (clip_summary <$> ps) acc = listing_loop i ps acc.
Proof.
  revert i acc. induction ps as [|p ps IH]; intros i acc; [done|].
  cbn [fmap list_fmap listing_loop]. rewrite IH. do 3 f_equal.
  unfold listing_entry, clip_summary, slice_to. cbn [title source summary link].
  by rewrite take_take, Nat.min_id.
Qed.

(** Of each abstract only the first 400 characters reach the model: the
    call is the same on the records with their summaries cut to 400
    characters. *)
Theorem ranking_clips_summaries (w : world) (papers : list paper)
  (research_interests max_papers : value) :
  filter_and_rank_papers w papers research_interests max_papers
  = filter_and_rank_papers w (clip_summary <$> papers) research_interests
      max_papers.
Proof.
  unfold filter_and_rank_papers, slice_to.
  by rewrite <- fmap_take, listing_loop_clip.
Qed.

(** The records of the listing are numbered by their place in the list
    that was passed, from 1. *)
Theorem ranking_numbers_records (papers : list paper) (k : nat) (p : paper) :
  k < 150 -> papers !! k = Some p ->
  listing_loop 1 (slice_to 150 papers) [] !! k
  = Some (listing_entry (S k) (title p) (source p) (summary p) (link p))
  /\ take (length (decimal (S k)) + 4)
       (listing_entry (S k) (title p) (source p) (summary p) (link p))
     = decimal (S k) ++ str ". **".
Proof.
  intros Hk Hp. split.
  - rewrite listing_loop_spec. cbn [app]. rewrite list_lookup_imap.
    unfold slice_to. rewrite lookup_take_lt by done. by rewrite Hp.
  - unfold listing_entry. rewrite (app_assoc (decimal (S k))).
    rewrite take_app_length'; [done|]. by rewrite length_app.
Qed.

Lemma ranking_numbers_records_witness :
  0 < 150 /\ [sample_paper] !! 0 = Some sample_paper /\
  listing_loop 1 (slice_to 150 [sample_paper]) [] !! 0
  = Some (listing_entry 1 (title sample_paper) (source sample_paper)
            (summary sample_paper) (link sample_paper)).
Proof.
  assert (H1 : 0 < 150) by lia.
  exact (conj H1 (conj eq_refl
    (proj1 (ranking_numbers_records [sample_paper] 0 sample_paper H1
              eq_refl)))).
Defined.

(** * The document and the preview *)

Lemma take_app_leb {A} (l k : list A) n :
  Nat.leb n (length l) = true -> take n (l ++ k) = take n l.
Proof. intros H. apply take_app_le. by apply Nat.leb_le. Qed.

Lemma html_lines_head w d :
  html_lines w d
  = take 40 (html_lines quiet_world []) ++ drop 40 (html_lines w d).
Proof. reflexivity. Qed.

Lemma document_take_500 (w : world) (digest_content : text)
  (config : gmap text value) :
  take 500 (generate_html_email w digest_content config) = document_head.
Proof.
  unfold generate_html_email. rewrite html_lines_head.
  rewrite map_app, concat_app.
  rewrite <- (app_assoc (concat _)), (app_assoc [NL]).
  rewrite take_app_leb by (vm_compute; reflexivity).
  vm_compute. reflexivity.
Qed.

(** The first 500 characters of the document lie in its fixed head: they
    are the same whatever the digest, the date and the configuration, and
    hold nothing of the digest. *)
Theorem document_head_fixed (w w' : world) (digest_content digest_content' : text)
  (config config' : gmap text value) :
  take 500 (generate_html_email w digest_content config) = document_head
  /\ take 500 (generate_html_email w digest_content config)
     = take 500 (generate_html_email w' digest_content' config').
Proof. by rewrite !document_take_500. Qed.

Lemma send_email_print_preview (w : world) (digest_content : text)
  (config : gmap text value) (recipient : value) :
  config !! str "email_method" = None \/
  config !! str "email_method" = Some (VStr (str "print")) ->
  config !! str "email" = Some recipient ->
  send_email w (generate_html_email w digest_content config) config
  = ([Print (str "Email generation successful!");
      Print (str "Would send to: " ++ format recipient);
      Print ([NL] ++ str "Preview:");
      Print document_head], Return tt).
Proof.
  intros Hm He. unfold send_email. rewrite (email_method_print _ Hm).
  rewrite decide_True by done. unfold getitem. rewrite He.
  unfold slice_to. rewrite document_take_500. reflexivity.
Qed.

(** In print mode the preview of a rendered digest is therefore always the
    same text. *)
Theorem preview_is_document_head (w : world) (digest_content : text)
  (config : gmap text value) (recipient : value) :
  config !! str "email_method" = None \/
  config !! str "email_method" = Some (VStr (str "print")) ->
  config !! str "email" = Some recipient ->
  send_email w (generate_html_email w digest_content config) config
  = ([Print (str "Email generation successful!");
      Print (str "Would send to: " ++ format recipient);
      Print ([NL] ++ str "Preview:");
      Print document_head], Return tt).
Proof. apply send_email_print_preview. Qed.

Lemma preview_is_document_head_witness :
  (preview_config !! str "email_method" = None \/
   preview_config !! str "email_method" = Some (VStr (str "print"))) /\
  preview_config !! str "email" = Some (VStr (str "reader@example.org")) /\
  send_email quiet_world
    (generate_html_email quiet_world (str "### 1. T") preview_config)
    preview_config
  = ([Print (str "Email generation successful!");
      Print (str "Would send to: " ++ format (VStr (str "reader@example.org")));
      Print ([NL] ++ str "Preview:");
      Print document_head], Return tt).
Proof.
  assert (H1 : preview_config !! str "email_method" = None \/
               preview_config !! str "email_method" = Some (VStr (str "print")))
    by (left; vm_compute; reflexivity).
  assert (H2 : preview_config !! str "email"
               = Some (VStr (str "reader@example.org")))
    by (vm_compute; reflexivity).
  exact (conj H1 (conj H2
    (preview_is_document_head quiet_world (str "### 1. T") preview_config
       _ H1 H2))).
Defined.

(** * Orchestration *)

(** A run that cannot load its configuration, or whose configuration has
    no [email] key, ends right after the opening line: nothing is
    retrieved, ranked or sent. *)
Theorem main_fails_early (w : world) (file : exn + configuration) :
  (forall e, file = inl e ->
     main w file
     = ([Print (str "Starting Research Digest Generator...")], Raise e))
  /\ (forall c, file = inr c -> settings c !! str "email" = None ->
        main w file
        = ([Print (str "Starting Research Digest Generator...")],
           Raise (KeyError (str "email")))).
Proof.
  split.
  - by intros e ->.
  - intros c -> He. unfold main, load_config, getitem. cbn [of_sum].
    cbv beta iota delta [mbind io_bind mret io_ret print emit].
    by rewrite He.
Qed.

Lemma main_fails_early_witness :
  settings {| settings := ∅; feeds_setting := Some sample_feeds |}
    !! str "email" = None /\
  main sample_world (inr {| settings := ∅; feeds_setting := Some sample_feeds |})
  = ([Print (str "Starting Research Digest Generator...")],
     Raise (KeyError (str "email"))).
Proof.
  exact (conj eq_refl
    (proj2 (main_fails_early sample_world
              (inr {| settings := ∅; feeds_setting := Some sample_feeds |}))
       _ eq_refl eq_refl)).
Defined.

Lemma main_after_fetch w c email ri mp feeds :
  complete_config c email ri mp feeds ->
  Forall (feed_ok w) feeds ->
  main w (inr c)
  = (let '(t, r) :=
       (digest_content ←
          filter_and_rank_papers w (in_source_order w feeds) ri mp;
        send_email w (generate_html_email w digest_content (settings c))
          (settings c);;
        print (str "Digest generation complete!")) in
     ([Print (str "Starting Research Digest Generator...");
       Print (str "Configuration loaded for: " ++ format email)]
      ++ fetch_trace feeds
      ++ [Print (str "Fetched "
                 ++ decimal (length (in_source_order w feeds))
                 ++ str " papers from " ++ decimal (length feeds)
                 ++ str " sources");
          Print (str "Analyzing papers with AI...")]
      ++ t, r)).
Proof.
  intros (He & Hri & Hmp & Hf) Hok.
  unfold main, load_config, config_feeds, getitem, fetch_papers.
  cbv beta iota delta [mbind io_bind mret io_ret print emit of_sum].
  rewrite He. cbv beta iota. rewrite Hf. cbv beta iota.
  rewrite fetch_loop_spec by done. cbv beta iota.
  rewrite Hri. cbv beta iota. rewrite Hmp. cbv beta iota.
  cbn [app].
  destruct (filter_and_rank_papers _ _ _ _) as [t1 [d|e]].
  - destruct (send_email _ _ _) as [t2 [[]|e]]; cbn [app];
      rewrite <- ?app_assoc; cbn [app]; rewrite ?app_nil_r; reflexivity.
  - rewrite <- ?app_assoc; cbn [app]; rewrite ?app_nil_r; reflexivity.
Qed.

(** The key of the model is looked for only after the feeds: without it a
    run with a complete configuration retrieves every feed, prints its
    two progress lines and then raises; nothing is rendered or sent. *)
Theorem main_without_key (w : world) (c : configuration)
  (email ri mp : value) (feeds : list feed_source) :
  complete_config c email ri mp feeds ->
  Forall (feed_ok w) feeds ->
  environ w !! str "GEMINI_API_KEY" = None ->
  main w (inr c)
  = ([Print (str "Starting Research Digest Generator...");
      Print (str "Configuration loaded for: " ++ format email)]
     ++ fetch_trace feeds
     ++ [Print (str "Fetched " ++ decimal (length (in_source_order w feeds))
                ++ str " papers from " ++ decimal (length feeds)
                ++ str " sources");
         Print (str "Analyzing papers with AI...")],
     Raise (ValueError (str "GEMINI_API_KEY not found in environment variables"))).
Proof.
  intros Hc Hok Hk. rewrite (main_after_fetch w c email ri mp feeds Hc Hok).
  rewrite ranking_no_key by done.
  cbv beta iota delta [mbind io_bind mret io_ret]. by rewrite app_nil_r.
Qed.

Lemma complete_sample :
  complete_config sample_configuration (VStr (str "reader@example.org"))
    (VStr (str "trade")) (VOther (str "10")) sample_feeds.
Proof. repeat apply conj; vm_compute; reflexivity. Qed.

Lemma main_without_key_witness :
  complete_config sample_configuration (VStr (str "reader@example.org"))
    (VStr (str "trade")) (VOther (str "10")) sample_feeds /\
  Forall (feed_ok sample_world) sample_feeds /\
  environ sample_world !! str "GEMINI_API_KEY" = None /\
  snd (main sample_world (inr sample_configuration))
  = Raise (ValueError (str "GEMINI_API_KEY not found in environment variables")).
Proof.
  assert (H2 : Forall (feed_ok sample_world) sample_feeds)
    by (repeat constructor).
  assert (H3 : environ sample_world !! str "GEMINI_API_KEY" = None)
    by (vm_compute; reflexivity).
  exact (conj complete_sample (conj H2 (conj H3
    (f_equal snd (main_without_key sample_world sample_configuration _ _ _ _
                    complete_sample H2 H3))))).
Defined.

(** ** A whole run *)

Lemma ranking_replies w papers ri mp key reply :
  environ w !! str "GEMINI_API_KEY" = Some key -> key <> [] ->
  model_reply w (ranking_prompt papers ri mp) = inr reply ->
  filter_and_rank_papers w papers ri mp
  = ([GenaiConfigure key; GenaiModel (str "gemini-2.0-flash-exp");
      GenerateContent (ranking_prompt papers ri mp)], Return reply).
Proof.
  intros H Hk Hr. unfold filter_and_rank_papers. rewrite H.
  destruct key as [|c key]; [done|]. cbn [falsy default].
  fold (ranking_prompt papers ri mp). unfold generate_content. rewrite Hr.
  reflexivity.
Qed.

(** A run in print mode in which every feed is retrieved and the model
    answers: the stages follow each other once, the only calls out of the
    process are the retrievals and the one model call, the preview is the
    fixed head of the document, and the completion line comes last. *)
Theorem main_print_run (w : world) (c : configuration)
  (email ri mp : value) (feeds : list feed_source) (key reply : text) :
  complete_config c email ri mp feeds ->
  settings c !! str "email_method" = None \/
  settings c !! str "email_method" = Some (VStr (str "print")) ->
  Forall (feed_ok w) feeds ->
  environ w !! str "GEMINI_API_KEY" = Some key -> key <> [] ->
  model_reply w (ranking_prompt (in_source_order w feeds) ri mp)
  = inr reply ->
  main w (inr c)
  = ([Print (str "Starting Research Digest Generator...");
      Print (str "Configuration loaded for: " ++ format email)]
     ++ fetch_trace feeds
     ++ [Print (str "Fetched " ++ decimal (length (in_source_order w feeds))
                ++ str " papers from " ++ decimal (length feeds)
                ++ str " sources");
         Print (str "Analyzing papers with AI...");
         GenaiConfigure key;
         GenaiModel (str "gemini-2.0-flash-exp");
         GenerateContent (ranking_prompt (in_source_order w feeds) ri mp);
         Print (str "Email generation successful!");
         Print (str "Would send to: " ++ format email);
         Print ([NL] ++ str "Preview:");
         Print document_head;
         Print (str "Digest generation complete!")],
     Return tt).
Proof.
  intros Hc Hm Hok Hk Hk' Hr.
  rewrite (main_after_fetch w c email ri mp feeds Hc Hok).
  rewrite (ranking_replies _ _ _ _ key reply) by done.
  destruct Hc as (He & _).
  cbv beta iota delta [mbind io_bind mret io_ret].
  rewrite (send_email_print_preview w reply (settings c) email Hm He).
  reflexivity.
Qed.

Lemma main_print_run_witness :
  complete_config sample_configuration (VStr (str "reader@example.org"))
    (VStr (str "trade")) (VOther (str "10")) sample_feeds /\
  (settings sample_configuration !! str "email_method" = None \/
   settings sample_configuration !! str "email_method"
   = Some (VStr (str "print"))) /\
  Forall (feed_ok ready_world) sample_feeds /\
  environ ready_world !! str "GEMINI_API_KEY" = Some (str "k") /\
  str "k" <> [] /\
  snd (main ready_world (inr sample_configuration)) = Return tt.
Proof.
  assert (H2 : settings sample_configuration !! str "email_method" = None \/
               settings sample_configuration !! str "email_method"
               = Some (VStr (str "print")))
    by (left; vm_compute; reflexivity).
  assert (H3 : Forall (feed_ok ready_world) sample_feeds)
    by (repeat constructor).
  assert (H4 : environ ready_world !! str "GEMINI_API_KEY" = Some (str "k"))
    by (vm_compute; reflexivity).
  assert (H5 : str "k" <> []) by (vm_compute; discriminate).
  exact (conj complete_sample (conj H2 (conj H3 (conj H4 (conj H5
    (f_equal snd
       (main_print_run ready_world sample_configuration _ _ _ _ _
          (str "### 1. A1") complete_sample H2 H3 H4 H5 eq_refl))))))).
Defined.

(** ** What every run has *)

Lemma io_bind_returns {A B} (x : io A) (f : A -> io B) t b :
  x ≫= f = (t, Return b) ->
  exists t1 a t2, x = (t1, Return a) /\ f a = (t2, Return b) /\ t = t1 ++ t2.
Proof.
  unfold mbind, io_bind. destruct x as [t1 [a|e]]; [|done].
  destruct (f a) as [t2 r] eqn:E. intros [= <- ->]. by exists t1, a, t2.
Qed.

Lemma ends_with_bind {A} line (x : io A) (f : A -> io unit) :
  (forall a, ends_with line (f a)) -> ends_with line (x ≫= f).
Proof.
  intros H t E. apply io_bind_returns in E as (t1 & a & t2 & _ & E & ->).
  rewrite last_app. by rewrite (H a t2 E).
Qed.

Lemma ends_with_print line : ends_with line (print line).
Proof. by intros t [= <-]. Qed.

(** A run that returns has printed the completion line, and printed it
    last; whatever stops a run earlier makes it raise. *)
Theorem main_completion (w : world) (file : exn + configuration)
  (t : list event) :
  main w file = (t, Return tt) ->
  last t = Some (Print (str "Digest generation complete!")).
Proof.
  revert t. change (ends_with (str "Digest generation complete!") (main w file)).
  unfold main. repeat (apply ends_with_bind; intros ?).
  apply ends_with_print.
Qed.

Lemma main_completion_witness :
  main ready_world (inr sample_configuration)
  = (fst (main ready_world (inr sample_configuration)), Return tt) /\
  last (fst (main ready_world (inr sample_configuration)))
  = Some (Print (str "Digest generation complete!")).
Proof.
  assert (H : main ready_world (inr sample_configuration)
              = (fst (main ready_world (inr sample_configuration)), Return tt))
    by (vm_compute; reflexivity).
  exact (conj H (main_completion _ _ _ H)).
Defined.

Section Quiet.
Context (Q : event -> Prop).

Lemma all_bind {A B} (x : io A) (f : A -> io B) :
  Forall Q (fst x) ->
  (forall t a, x = (t, Return a) -> Forall Q (fst (f a))) ->
  Forall Q (fst (x ≫= f)).
Proof.
  intros Hx Hf. unfold mbind, io_bind. destruct x as [t1 [a|e]]; [|done].
  specialize (Hf t1 a eq_refl). destruct (f a) as [t2 r]. simpl in *.
  by apply Forall_app.
Qed.

Lemma all_getitem {V} (d : gmap text V) key : Forall Q (fst (getitem d key)).
Proof. unfold getitem. by destruct (d !! key). Qed.

End Quiet.

Lemma fetch_loop_no_smtp w feeds acc :
  Forall (fun e => is_smtp e = false) (fst (fetch_loop w feeds acc)).
Proof.
  revert acc. induction feeds as [|f feeds IH]; intros acc; [done|].
  cbn [fetch_loop]. apply all_bind; [by repeat constructor|]. intros _ _ _.
  apply all_bind; [by repeat constructor|]. intros _ feed _. apply IH.
Qed.

Lemma ranking_no_smtp w papers ri mp :
  Forall (fun e => is_smtp e = false)
    (fst (filter_and_rank_papers w papers ri mp)).
Proof.
  unfold filter_and_rank_papers. destruct (falsy _); [done|].
  repeat (apply all_bind; [by repeat constructor|]; intros ? ? ?). done.
Qed.

Lemma send_email_no_smtp (w : world) (html_content : text)
  (config : gmap text value) :
  config !! str "email_method" <> Some (VStr (str "gmail")) ->
  Forall (fun e => is_smtp e = false) (fst (send_email w html_content config)).
Proof.
  intros Hm. eapply Forall_impl; [by apply send_email_offline_events|].
  by intros [].
Qed.

(** Unless the configuration selects the gmail mode, a run never
    addresses the mail relay, however it ends. *)
Theorem main_no_relay (w : world) (file : exn + configuration) :
  (forall c, file = inr c ->
     settings c !! str "email_method" <> Some (VStr (str "gmail"))) ->
  Forall (fun e => is_smtp e = false) (fst (main w file)).
Proof.
  intros Hm. unfold main.
  apply all_bind; [by repeat constructor|]. intros _ _ _.
  apply all_bind; [unfold load_config; by destruct file|].
  intros t c Hc.
  assert (Hfile : file = inr c).
  { unfold load_config in Hc. destruct file; by simplify_eq/=. }
  apply all_bind; [apply all_getitem|]. intros _ email _.
  apply all_bind; [by repeat constructor|]. intros _ _ _.
  apply all_bind; [unfold config_feeds; by destruct (feeds_setting c)|].
  intros _ feeds _. apply all_bind; [apply fetch_loop_no_smtp|].
  intros _ papers _.
  apply all_bind; [unfold config_feeds; by destruct (feeds_setting c)|].
  intros _ feeds' _. apply all_bind; [by repeat constructor|]. intros _ _ _.
  apply all_bind; [by repeat constructor|]. intros _ _ _.
  apply all_bind; [apply all_getitem|]. intros _ ri _.
  apply all_bind; [apply all_getitem|]. intros _ mp _.
  apply all_bind; [apply ranking_no_smtp|]. intros _ d _.
  apply all_bind; [|by repeat constructor].
  apply send_email_no_smtp. by apply Hm.
Qed.

Lemma main_no_relay_witness :
  (forall c : configuration,
     @inr exn configuration sample_configuration = inr c ->
     settings c !! str "email_method" <> Some (VStr (str "gmail"))) /\
  Forall (fun e => is_smtp e = false)
    (fst (main ready_world (inr sample_configuration))).
Proof.
  assert (H : forall c : configuration,
             @inr exn configuration sample_configuration = inr c ->
             settings c !! str "email_method" <> Some (VStr (str "gmail"))).
  { intros c [= <-]. distinct_chars. }
  exact (conj H (main_no_relay ready_world (inr sample_configuration) H)).
Defined.

(** * More on the store *)

Lemma store_refines_witness :
  Store.holds_papers sample_heap (Store.Ref 0) [sample_paper] /\
  fst (Store.filter_and_rank_papers keyed_world (Store.Ref 0)
         (VStr (str "trade")) (VOther (str "10")) sample_heap)
  = filter_and_rank_papers keyed_world [sample_paper] (VStr (str "trade"))
      (VOther (str "10")).
Proof.
  assert (H : Store.holds_papers sample_heap (Store.Ref 0) [sample_paper]).
  { exists 0, [1]. split; [done|]. split; [by vm_compute|].
    constructor; [by vm_compute | constructor]. }
  exact (conj H (store_refines keyed_world sample_heap (Store.Ref 0)
                   [sample_paper] (VStr (str "trade")) (VOther (str "10")) H)).
Defined.

(** The Ranking Client writes only to objects that it creates: on any
    store and for any argument, also one that is no list of records, every
    object that the store held before the call is the same after it,
    whether the call returns or raises. *)
Theorem ranking_writes_only_new_objects (w : world) (h : Store.heap)
  (papers : Store.pyval) (research_interests max_papers : value)
  (l : nat) (o : Store.obj) :
  h !! l = Some o ->
  snd (Store.filter_and_rank_papers w papers research_interests max_papers h)
    !! l = Some o.
Proof.
  intros Hl.
  destruct (keeps_filter_and_rank_papers h w papers research_interests
              max_papers h (frame_refl h)) as [Hf _].
  by rewrite Hf.
Qed.

Lemma ranking_writes_only_new_objects_witness :
  sample_heap !! 1 = Some (Store.paper_dict sample_paper) /\
  snd (Store.filter_and_rank_papers keyed_world (Store.Str (str "oops"))
         (VStr (str "trade")) (VOther (str "10")) sample_heap) !! 1
  = Some (Store.paper_dict sample_paper).
Proof.
  assert (H : sample_heap !! 1 = Some (Store.paper_dict sample_paper))
    by (vm_compute; reflexivity).
  exact (conj H (ranking_writes_only_new_objects keyed_world sample_heap
                   (Store.Str (str "oops")) (VStr (str "trade"))
                   (VOther (str "10")) 1 _ H)).
Defined.

Lemma exec_consumes_witness :
  (bold_re ∈ [heading_re; bold_re; link_re]) /\
  exec bold_re (str "**x** y") 0 [] = Some (5, [(1, 3); (0, 2)]) /\
  3 <= 5.
Proof.
  assert (H1 : bold_re ∈ [heading_re; bold_re; link_re])
    by (right; left).
  assert (H2 : exec bold_re (str "**x** y") 0 [] = Some (5, [(1, 3); (0, 2)]))
    by (vm_compute; reflexivity).
  exact (conj H1 (conj H2 (exec_consumes _ _ _ _ H1 H2))).
Defined.
